(** * go-annotate: the runtime logger (package [log])

    A shallow embedding of the event formatter, the emitter API, the wire
    encoder and the two background delivery workers of go-annotate's [log]
    package, together with the properties its specification states about
    them.

    Conventions.
    - A Go [string] is a Rocq [string] (a sequence of bytes); a [[]byte] is a
      [list byte].
    - Integers are [Z]; where the Go type can wrap, the wrap is written out.
    - A [time.Duration] is its number of nanoseconds.
    - Functions of Go's standard library ([strconv], [strings],
      [encoding/hex]) are modelled in modules that carry the package's name.
    - What the runtime cannot know statically (Unicode tables, the JSON and
      CBOR marshalers, the process environment) is a [Variable] of the
      section that uses it. *)

From Stdlib Require Import ZArith List String Ascii Lia Bool.
From Stdlib Require Import DecimalString HexString Floats.SpecFloat Strings.Byte.
From Stdlib Require Import DecimalPos DecimalN DecimalZ FinFun.
Import ListNotations.
Open Scope Z_scope.
#[local] Set Warnings "-register-all".

(** ** Characters that cannot be written inside a literal *)

Definition dquote : ascii := "034"%char.
Definition newline : ascii := "010"%char.
Definition backslash : ascii := "\"%char.

Definition str1 (c : ascii) : string := String c EmptyString.

(** The value of a byte and of a character, as a number in [0, 256). *)
Definition byteZ (b : byte) : Z := Z.of_N (Byte.to_N b).
Definition asciiZ (c : ascii) : Z := Z.of_N (N_of_ascii c).

(** ** Package [strings] *)

Module strings.

(** [strings.Contains(s, substr)]. *)
Fixpoint Contains (s substr : string) : bool :=
  if prefix substr s then true
  else match s with
       | EmptyString => false
       | String _ s' => Contains s' substr
       end.

(** [strings.Join(elems, sep)]. *)
Fixpoint Join (elems : list string) (sep : string) : string :=
  match elems with
  | [] => EmptyString
  | [x] => x
  | x :: rest => (x ++ sep ++ Join rest sep)%string
  end.

End strings.

(** ** Package [encoding/hex] *)

Module hex.

Definition hextable : string := "0123456789abcdef".

Definition digit (d : Z) : ascii :=
  match String.get (Z.to_nat d) hextable with
  | Some c => c
  | None => "0"%char
  end.

(** The two lowercase digits of one byte value. *)
Definition encodeByte (b : Z) : string :=
  String (digit (Z.shiftr b 4)) (String (digit (Z.land b 15)) EmptyString).

(** [hex.AppendEncode(dst, src)]. *)
Fixpoint AppendEncode (dst : string) (src : list byte) : string :=
  match src with
  | [] => dst
  | b :: rest => AppendEncode (dst ++ encodeByte (byteZ b))%string rest
  end.

End hex.

(** ** Package [strconv] *)

Module strconv.

(** [strconv.FormatUint(i, 10)] for [0 <= i]. *)
Definition FormatUint (i : Z) : string :=
  NilZero.string_of_uint (N.to_uint (Z.to_N i)).

(** [strconv.FormatInt(i, 10)]. *)
Definition FormatInt (i : Z) : string :=
  NilZero.string_of_int (Z.to_int i).

(** Round [num / den] to the nearest integer, ties to even ([0 <= num],
    [0 < den]): the rounding of [decimal.Round]. *)
Definition roundHalfEven (num den : Z) : Z :=
  let q := num / den in
  let r := num mod den in
  if (2 * r >? den) || ((2 * r =? den) && Z.odd q) then q + 1 else q.

(** [n] as [width] decimal digits, zero-padded on the left. *)
Definition padded (width : nat) (n : Z) : string :=
  let s := FormatUint n in
  (string_of_list_ascii (repeat "0"%char (width - String.length s)) ++ s)%string.

(** The digits of [scaled / 10^prec] with [prec] decimals ([%e] is never
    used for the ['f'] format). *)
Definition fixed (neg : bool) (prec : Z) (scaled : Z) : string :=
  ((if neg then "-" else "")
     ++ FormatUint (scaled / 10 ^ prec)
     ++ (if (0 <? prec)%Z
         then "." ++ padded (Z.to_nat prec) (scaled mod 10 ^ prec)
         else ""))%string.

(** [strconv.FormatFloat(f, 'f', prec, bitSize)] for [0 <= prec]: the
    exact decimal expansion of the binary value [m * 2^e], rounded to
    [prec] decimals, ties to even.  [bitSize] only selects the width the
    value was rounded to before the call, so it does not appear. *)
Definition FormatFloat_f (f : spec_float) (prec : Z) : string :=
  match f with
  | S754_nan => "NaN"
  | S754_infinity s => if s then "-Inf" else "+Inf"
  | S754_zero s => fixed s prec 0
  | S754_finite s m e =>
      fixed s prec
        (if 0 <=? e
         then Zpos m * 2 ^ e * 10 ^ prec
         else roundHalfEven (Zpos m * 10 ^ prec) (2 ^ (- e)))
  end.

(** *** [strconv.Quote] *)

Definition RuneError : Z := 0xFFFD.

Definition between (lo x hi : Z) : bool := (lo <=? x) && (x <=? hi).

Definition cont (b : Z) : Z := Z.land b 0x3F.

(** [utf8.DecodeRuneInString]: the first rune of a non-empty byte
    sequence and its width; [(RuneError, 1)] when the encoding is
    invalid. *)
Definition DecodeRune (bs : list Z) : Z * nat :=
  match bs with
  | [] => (RuneError, 0%nat)
  | b0 :: t =>
      if b0 <? 0x80 then (b0, 1%nat)
      else if between 0xC2 b0 0xDF then
        match t with
        | b1 :: _ =>
            if between 0x80 b1 0xBF
            then (Z.lor (Z.shiftl (Z.land b0 0x1F) 6) (cont b1), 2%nat)
            else (RuneError, 1%nat)
        | _ => (RuneError, 1%nat)
        end
      else if between 0xE0 b0 0xEF then
        match t with
        | b1 :: b2 :: _ =>
            if between (if b0 =? 0xE0 then 0xA0 else 0x80) b1
                       (if b0 =? 0xED then 0x9F else 0xBF)
               && between 0x80 b2 0xBF
            then (Z.lor (Z.shiftl (Z.land b0 0x0F) 12)
                    (Z.lor (Z.shiftl (cont b1) 6) (cont b2)), 3%nat)
            else (RuneError, 1%nat)
        | _ => (RuneError, 1%nat)
        end
      else if between 0xF0 b0 0xF4 then
        match t with
        | b1 :: b2 :: b3 :: _ =>
            if between (if b0 =? 0xF0 then 0x90 else 0x80) b1
                       (if b0 =? 0xF4 then 0x8F else 0xBF)
               && between 0x80 b2 0xBF && between 0x80 b3 0xBF
            then (Z.lor (Z.shiftl (Z.land b0 0x07) 18)
                    (Z.lor (Z.shiftl (cont b1) 12)
                       (Z.lor (Z.shiftl (cont b2) 6) (cont b3))), 4%nat)
            else (RuneError, 1%nat)
        | _ => (RuneError, 1%nat)
        end
      else (RuneError, 1%nat)
  end.

(** [n] as exactly [width] lowercase hexadecimal digits. *)
Fixpoint hexDigits (width : nat) (n : Z) : string :=
  match width with
  | O => EmptyString
  | S w => (hexDigits w (Z.shiftr n 4) ++ str1 (hex.digit (Z.land n 15)))%string
  end.

Section Quote.

(** [unicode.IsPrint] above Latin-1 is a table of the Go distribution. *)
Variable isPrintTable : Z -> bool.

Definition IsPrint (r : Z) : bool :=
  if r <=? 0xFF then
    if between 0x20 r 0x7E then true
    else if between 0xA1 r 0xFF then negb (r =? 0xAD)
    else false
  else isPrintTable r.

Definition ValidRune (r : Z) : bool :=
  between 0 r 0xD7FF || between 0xE000 r 0x10FFFF.

(** [appendEscapedRune] for the double quote, neither ASCII-only nor
    graphic-only; [raw] is the rune's own encoding. *)
Definition escapedRune (r : Z) (raw : string) : string :=
  if (r =? asciiZ dquote) || (r =? asciiZ backslash)
  then String backslash raw
  else if IsPrint r then raw
  else if r =? 7 then "\a"
  else if r =? 8 then "\b"
  else if r =? 12 then "\f"
  else if r =? 10 then "\n"
  else if r =? 13 then "\r"
  else if r =? 9 then "\t"
  else if r =? 11 then "\v"
  else if (r <? 0x20) || (r =? 0x7F) then ("\x" ++ hexDigits 2 r)%string
  else if negb (ValidRune r) then ("\u" ++ hexDigits 4 RuneError)%string
  else if r <? 0x10000 then ("\u" ++ hexDigits 4 r)%string
  else ("\U" ++ hexDigits 8 r)%string.

(** The loop of [appendQuotedWith]: [skip] counts the continuation
    bytes of the rune just handled. *)
Fixpoint quoteLoop (skip : nat) (s : list ascii) : string :=
  match s with
  | [] => EmptyString
  | c :: t =>
      match skip with
      | S k => quoteLoop k t
      | O =>
          let (r, width) := DecodeRune (map asciiZ s) in
          let piece :=
            if (width =? 1)%nat && (r =? RuneError)
            then ("\x" ++ hexDigits 2 (asciiZ c))%string
            else escapedRune r (string_of_list_ascii (firstn width s)) in
          (piece ++ quoteLoop (width - 1) t)%string
      end
  end.

(** [strconv.Quote(s)], which is what [fmt.Sprintf("%q", s)] prints. *)
Definition Quote (s : string) : string :=
  String dquote (quoteLoop 0 (list_ascii_of_string s) ++ str1 dquote).

End Quote.

End strconv.

(** ** Values handed to the formatter

    [format] takes an [any].  Its type switch names the dynamic types below;
    every other dynamic type reaches the [error] case or the reflective
    default, and is described by what [reflect] and [fmt] report about it. *)

(** What [reflect.ValueOf(i)] and [fmt] see of a value of a type the switch
    does not name. *)
Inductive Reflected : Type :=
| RPtr (addr : Z)                  (* [reflect.Ptr]; the nil pointer is address 0 *)
| RSlice (len : Z) (elem : string) (* [reflect.Slice]: length, element type *)
| RArray (len : Z) (elem : string) (* [reflect.Array] *)
| RMap (len : Z)                   (* [reflect.Map] *)
| RChan (elem : string)            (* [reflect.Chan] *)
| RFunc (typ : string)             (* [reflect.Func]: [rv.Type().String()] *)
| RString (s : string)             (* a defined type whose underlying type is
                                      [string], without methods: [%v] prints
                                      its bytes *)
| ROpaque (verbV : string).        (* any other kind (struct, complex, defined
                                      numeric types, ...): what [%v] prints *)

Inductive GoValue : Type :=
| VNil                                  (* the nil interface value *)
| VInt (v : Z) | VInt8 (v : Z) | VInt16 (v : Z) | VInt32 (v : Z) | VInt64 (v : Z)
| VUint (v : Z) | VUint8 (v : Z) | VUint16 (v : Z) | VUint32 (v : Z) | VUint64 (v : Z)
| VFloat32 (v : spec_float)
| VFloat64 (v : spec_float)
| VBytes (v : list byte)                (* [[]byte] *)
| VBytesList (v : list (list byte))     (* [[][]byte] *)
| VArray8Uint32 (v : list Z)            (* [[8]uint32] *)
| VArray32Uint8 (v : list byte)         (* [[32]uint8] *)
| VPtrArray32Uint8 (v : option (list byte)) (* [*[32]uint8]; [None] is nil *)
| VString (v : string)
| VBool (v : bool)
| VError (r : Reflected) (msg : string) (* a dynamic type that implements
                                           [error]; [msg] is what [v.Error()]
                                           returns, when it returns: the call
                                           is the matter of [formatError] *)
| VOther (r : Reflected).

(** A pointer value that is nil inside a non-nil interface. *)
Definition typedNilPointer (i : GoValue) : bool :=
  match i with
  | VPtrArray32Uint8 None => true
  | VError (RPtr addr) _ | VOther (RPtr addr) => addr =? 0
  | _ => false
  end.

(** Constants: the [float64] (resp. [float32]) nearest to the decimal
    [num / den], as Go converts an untyped constant.  The constant is an
    exact rational: numerator and denominator enter the division as they
    are, and the quotient is rounded, once. *)
Definition integerConst (n : Z) : spec_float :=
  match n with
  | Z0 => S754_zero false
  | Zpos p => S754_finite false p 0
  | Zneg p => S754_finite true p 0
  end.

Definition float64Const (num den : Z) : spec_float :=
  SFdiv 53 1024 (integerConst num) (integerConst den).

Definition float32Const (num den : Z) : spec_float :=
  SFdiv 24 128 (integerConst num) (integerConst den).

(** ** Events *)

Record FuncCall : Type := mkFuncCall {
  Name : string;
  Args : list string;
  Results : list string;
  Time : Z                      (* [time.Time], as nanoseconds since the epoch *)
}.

Inductive WeakTerm : Type :=
| mkWeakTerm (wName wType wValue : string) (wArgs : list WeakTerm).

Record TimedEvent : Type := mkTimedEvent {
  teTime : Z;
  teEvent : WeakTerm
}.

Inductive Format : Type :=
| FormatJSON | FormatCBOR | FormatText | FormatDebug
| FormatUnknown (n : Z).        (* [Format] is an [int]: any other number *)

Definition PairFunctionName : string := "pair".
Definition separator : string := "_".
Definition EnterSuffix : string := "Enter".
Definition LeaveSuffix : string := "Leave".

(** ** Diagnostics

    The lines the runtime prints with the standard [log] package, kept as
    data: one constructor per [log.Printf] call site, with its arguments. *)
Inductive LogMsg : Type :=
| MsgSocketBufferFull (name : string) (* Critical: Socket event buffer full ..., dropping event: %s *)
| MsgBufferFull (name : string)       (* Warning: Event buffer full, dropping event: %s *)
| MsgFileWriteFailed                  (* Fatal: Failed to write to log file: %v *)
| MsgTargetNotSet                     (* Warning: GO_ANNOTATE_LOG_TARGET (socket address) not set ... *)
| MsgDialFailed (addr : string) (retry : Z) (* Log connection to %s failed: %v. Retrying in %v *)
| MsgBacklogOverflow (dropped kept : Z)     (* Event backlog overflow: dropped %d old events, keeping %d *)
| MsgBuffered (count : Z)             (* Buffered %d events during connection failure *)
| MsgEstablished (addr : string) (backlog : Z) (* Log connection to %s established. Backlog size: %d *)
| MsgKeepAliveFailed                  (* Failed to set keep-alive: %v *)
| MsgKeepAlivePeriodFailed            (* Failed to set keep-alive period: %v *)
| MsgBacklogWriteFailed (i : Z)       (* Failed to write backlogged event %d to log socket ... *)
| MsgBacklogSent (addr : string)      (* Successfully sent all backlogged events to %s *)
| MsgWriteFailed                      (* Failed to write to log socket: %v. Reconnecting... *)
| MsgSent (count : Z)                 (* Sent %d events to socket *)
| MsgFormatError.                     (* Error formatting log event: %v *)

(** ** The logger *)

(** A buffered channel of events: its content, oldest first, and its
    capacity.  The channel of a [Logger] is made by [NewLogger] and never
    closed. *)
Record Chan : Type := mkChan {
  buf : list FuncCall;
  cap : Z
}.

Record Logger : Type := mkLogger {
  counter : Z;
  format_ : Format;
  eventBuffer : Chan;
  sentCount : Z
}.

Definition len {A : Type} (l : list A) : Z := Z.of_nat (List.length l).

Definition wrap64 (n : Z) : Z := n mod 2 ^ 64.

(** [int64] arithmetic: the result of an overflowing operation wraps. *)
Definition wrapInt64 (n : Z) : Z := (n + 2 ^ 63) mod 2 ^ 64 - 2 ^ 63.

(** ** The instrumentation tool: names of the results

    The tool that inserts the calls of [LogEnter] and [LogLeave] names the
    results of a function to pass them to [LogLeave].  Of a field list
    only the names matter here: a field is the list of its names, empty
    for an unnamed field, and the list itself may be absent. *)

Definition resultPrefix : string := "res".

(** [paramNames(params)]. *)
Definition paramNames (params : option (list (list string))) : list string :=
  match params with
  | None => []
  | Some fields => List.concat fields
  end.

(** The loop of [resultNames]; [p] is the slice built so far. *)
Fixpoint resultNamesFrom (p : list string) (fields : list (list string)) : list string :=
  match fields with
  | [] => p
  | f :: rest =>
      match f with
      | [] => resultNamesFrom (p ++ [resultPrefix ++ strconv.FormatInt (len p + 1)]%string) rest
      | _ => resultNamesFrom (p ++ f) rest
      end
  end.

(** [resultNames(results)]. *)
Definition resultNames (results : option (list (list string))) : list string :=
  match results with
  | None => []
  | Some fields => resultNamesFrom [] fields
  end.

(** The flag [HasNamedReturn] that [extractFunctionInfo] computes from the
    names of the results. *)
Definition hasNamedReturn (retNames : list string) : bool :=
  match retNames with
  | first :: _ => negb (prefix resultPrefix first)
  | [] => true
  end.


(** The format [init] reads from [GO_ANNOTATE_LOG_FORMAT]: a [switch] on
    the four names, over a variable that starts as the zero value. *)
Definition logFormatOf (env : string) : Format :=
  if String.eqb env "json" then FormatJSON
  else if String.eqb env "cbor" then FormatCBOR
  else if String.eqb env "text" then FormatText
  else if String.eqb env "debug" then FormatDebug
  else FormatJSON.


(** ** Destination syntax *)

(** [isSocketAddress(addr)]. *)
Definition isSocketAddress (addr : string) : bool :=
  strings.Contains addr ":"
  && negb (strings.Contains addr "/")
  && negb (strings.Contains addr "\").

Section Runtime.

(** [unicode.IsPrint] above Latin-1. *)
Variable isPrintTable : Z -> bool.

(** [json.Marshal] and [cbor.Marshal] on a [*TimedEvent]: the bytes, or
    an error. *)
Variable json_Marshal : TimedEvent -> list byte + string.
Variable cbor_Marshal : TimedEvent -> list byte + string.

(** [fmt.Sprintf] with the verb [%#v] on a [*FuncCall]. *)
Variable gosyntax : FuncCall -> string.

(** [os.Getenv] on [GO_ANNOTATE_LOG_TARGET]. *)
Variable GO_ANNOTATE_LOG_TARGET : string.

(** *** The formatter *)

(** [appendHex(dst, src)]. *)
Definition appendHex (dst : string) (src : list byte) : string :=
  if len src =? 0 then dst else hex.AppendEncode dst src.

(** The bytes of a 32-bit word in memory, on a little-endian machine. *)
Definition byteOfZ (n : Z) : byte :=
  match Byte.of_N (Z.to_N (n mod 256)) with
  | Some b => b
  | None => x00
  end.

Definition wordBytes (w : Z) : list byte :=
  [byteOfZ w; byteOfZ (Z.shiftr w 8); byteOfZ (Z.shiftr w 16); byteOfZ (Z.shiftr w 24)].

(** The loop of the [[][]byte] case; [i] is the index of the head of [v]. *)
Fixpoint appendSegments (bufr : string) (i : Z) (v : list (list byte)) : string :=
  match v with
  | [] => bufr
  | b :: rest =>
      let bufr := if 0 <? i then (bufr ++ "|")%string else bufr in
      appendSegments (appendHex bufr b) (i + 1) rest
  end.

(** The default case of the type switch. *)
Definition formatReflected (r : Reflected) : string :=
  match r with
  | RPtr addr => if addr =? 0 then "<nil>" else HexString.of_Z addr
  | RSlice n elem | RArray n elem =>
      ("[" ++ strconv.FormatInt n ++ "]" ++ elem)%string
  | RMap n => ("map[" ++ strconv.FormatInt n ++ "]")%string
  | RChan elem => ("chan(" ++ elem ++ ")")%string
  | RFunc typ => ("func(" ++ typ ++ ")")%string
  | RString s => s
  | ROpaque verbV => verbV
  end.

Definition format (i : GoValue) : string :=
  match i with
  | VNil => ""
  | VInt v | VInt8 v | VInt16 v | VInt32 v | VInt64 v => strconv.FormatInt v
  | VUint v | VUint8 v | VUint16 v | VUint32 v | VUint64 v => strconv.FormatUint v
  | VFloat32 v => strconv.FormatFloat_f v 6
  | VFloat64 v => strconv.FormatFloat_f v 6
  | VBytes v => if len v =? 0 then "0x" else appendHex "0x" v
  | VBytesList v => if len v =? 0 then "0x" else appendSegments "0x" 0 v
  | VArray8Uint32 v => appendHex "0x" (flat_map wordBytes v)
  | VArray32Uint8 v => appendHex "0x" v
  | VPtrArray32Uint8 None => "<nil>"
  | VPtrArray32Uint8 (Some v) => appendHex "0x" v
  | VString v => strconv.Quote isPrintTable v
  | VBool v => if v then "1" else "0"
  | VError _ msg => strconv.Quote isPrintTable msg
  | VOther r => formatReflected r
  end.

(** *** The emitter API *)

(** [Logger.Log]: a [select] with a send case and a [default]. *)
Definition Log (l : Logger) (fn : FuncCall) : Logger * list LogMsg :=
  let ch := eventBuffer l in
  if len (buf ch) <? cap ch then
    (mkLogger (counter l) (format_ l) (mkChan (buf ch ++ [fn]) (cap ch)) (sentCount l), [])
  else
    let logTarget := GO_ANNOTATE_LOG_TARGET in
    if negb (String.eqb logTarget "") && isSocketAddress logTarget
    then (l, [MsgSocketBufferFull (Name fn)])
    else (l, [MsgBufferFull (Name fn)]).

(** The event [LogEnter] builds; [now] is [time.Now()]. *)
Definition enterEvent (now : Z) (id : Z) (name : string) (args : list GoValue) : FuncCall :=
  let formattedArgs := [strconv.FormatUint id] in
  let formattedArgs := formattedArgs ++ map format args in
  {| Name := (name ++ separator ++ EnterSuffix)%string;
     Args := formattedArgs;
     Results := [];
     Time := now |}.


(** The event [LogLeave] builds. *)
Definition leaveEvent (now : Z) (id : Z) (name : string)
           (args results : list GoValue) : FuncCall :=
  let formattedArgs := [strconv.FormatUint id] in
  let formattedArgs := formattedArgs ++ map format args in
  let formattedResults := map format results in
  {| Name := (name ++ separator ++ LeaveSuffix)%string;
     Args := formattedArgs;
     Results := formattedResults;
     Time := now |}.


(** [NewLogger(format)]: the queue is larger when the destination is a
    socket. *)
Definition NewLogger (fmt : Format) : Logger :=
  let logTarget := GO_ANNOTATE_LOG_TARGET in
  let bufferSize :=
    if negb (String.eqb logTarget "") && isSocketAddress logTarget
    then 100000 else 10000 in
  {| counter := 0; format_ := fmt;
     eventBuffer := mkChan [] bufferSize; sentCount := 0 |}.

(** [Logger.ID]: [atomic.AddUint64(&l.counter, 1)]. *)
Definition ID (l : Logger) : Logger * Z :=
  let c := wrap64 (counter l + 1) in
  (mkLogger c (format_ l) (eventBuffer l) (sentCount l), c).

(** *** The encoder *)

(** [FuncCall.String]. *)
Definition FuncCall_String (f : FuncCall) : string :=
  if len (Results f) =? 0 then
    (Name f ++ "(" ++ strings.Join (Args f) ", " ++ ")")%string
  else
    (Name f ++ "(" ++ strings.Join (Args f) ", " ++ ") = ("
       ++ strings.Join (Results f) ", " ++ ")")%string.

Definition constant (value : string) : WeakTerm :=
  mkWeakTerm "" "constant" value [].

(** [time.Time.UnixNano]: the nanoseconds since the epoch, computed in
    [int64]; for a time before 1678 or after 2262 the result wraps. *)
Definition UnixNano (t : Z) : Z := wrapInt64 t.

(** [FuncCall.toTimedEvent]. *)
Definition toTimedEvent (f : FuncCall) : TimedEvent :=
  let args := map constant (Args f) in
  let results := map constant (Results f) in
  {| teTime := UnixNano (Time f);
     teEvent :=
       mkWeakTerm PairFunctionName "function" ""
         [ mkWeakTerm (Name f) "function" "" args;
           mkWeakTerm PairFunctionName "function" "" results ] |}.

Definition newlineByte : byte := x0a.

(** [formatEvent(fn, format)]: the message, [None] for a nil slice, and
    what it logs.  In the JSON case the error of [json.Marshal] is bound
    by [:=] inside the case, so the function's own [err] stays nil. *)
Definition formatEvent (fn : FuncCall) (fmt : Format) : option (list byte) * list LogMsg :=
  match fmt with
  | FormatText =>
      let str := FuncCall_String fn in
      (Some (list_byte_of_string str ++ [newlineByte]), [])
  | FormatJSON =>
      match json_Marshal (toTimedEvent fn) with
      | inl jsonBytes => (Some (jsonBytes ++ [newlineByte]), [])
      | inr _ => (None, [])
      end
  | FormatCBOR =>
      match cbor_Marshal (toTimedEvent fn) with
      | inl bytes => (Some bytes, [])
      | inr _ => (None, [MsgFormatError])
      end
  | FormatDebug =>
      (Some (list_byte_of_string (gosyntax fn) ++ [newlineByte]), [])
  | FormatUnknown _ => (None, [])
  end.

(** *** What a worker does, as seen from outside *)

Inductive Action : Type :=
| ActRecv (fn : FuncCall)              (* an event taken from [eventBuffer] *)
| ActDial (network addr : string) (timeout : Z) (ok : bool)
| ActAfter (d : Z)                     (* [time.After(d)] *)
| ActTimeout                           (* the timer's channel delivers *)
| ActWrite (bytes : list byte) (ok : bool)
| ActClose
| ActLog (m : LogMsg).

Definition received (tr : list Action) : list FuncCall :=
  flat_map (fun a => match a with ActRecv fn => [fn] | _ => [] end) tr.

(** The messages handed to [Write], with the outcome of each call. *)
Definition writes (tr : list Action) : list (list byte * bool) :=
  flat_map (fun a => match a with ActWrite b ok => [(b, ok)] | _ => [] end) tr.

Definition logged (tr : list Action) : list LogMsg :=
  flat_map (fun a => match a with ActLog m => [m] | _ => [] end) tr.

Definition dials (tr : list Action) : list (Z * bool) :=
  flat_map (fun a => match a with ActDial _ _ t ok => [(t, ok)] | _ => [] end) tr.

Definition waits (tr : list Action) : list Z :=
  flat_map (fun a => match a with ActAfter d => [d] | _ => [] end) tr.

(** *** The file worker *)

(** The loop of [processLogQueueToFile] over the events the channel
    delivers; [writeOk k] tells whether the [k]-th call of [file.Write]
    returns a nil error.  The channel is never closed, so the deferred
    [file.Close] does not run. *)
Fixpoint fileLoop (fmt : Format) (writeOk : nat -> bool) (k : nat)
         (events : list FuncCall) : list Action :=
  match events with
  | [] => []
  | fn :: rest =>
      let (bytes, logs) := formatEvent fn fmt in
      let data := match bytes with Some b => b | None => [] end in
      [ActRecv fn] ++ map ActLog logs
        ++ [ActWrite data (writeOk k)]
        ++ (if writeOk k then [] else [ActLog MsgFileWriteFailed])
        ++ fileLoop fmt writeOk (S k) rest
  end.

Definition processLogQueueToFile (l : Logger) (writeOk : nat -> bool)
           (events : list FuncCall) : list Action :=
  fileLoop (format_ l) writeOk 0 events.

(** *** The socket worker *)

Definition Second : Z := 1000000000.
Definition retryBase : Z := Second.
Definition maxRetry : Z := 30 * Second.
Definition dialTimeout : Z := 5 * Second.

(** The capacity of the backlog and the size of one eviction. *)
Definition backlogLimit : Z := 10000.
Definition evictBatch : nat := 2000.

(** The local state of [manageConnectionAndSend], with the logger's
    [sentCount]. *)
Record Worker : Type := mkWorker {
  currentRetry : Z;
  eventBacklog : list FuncCall;
  sent : Z
}.

(** A connection, as the worker meets it: whether the two keep-alive
    calls and the [k]-th [Write] succeed. *)
Record Conn : Type := mkConn {
  keepAliveOk : bool;
  keepAlivePeriodOk : bool;
  writeOk : nat -> bool
}.

(** What the environment decides in one turn of the outer loop: the dial
    fails and [ready] events are received before the retry timer fires,
    or the dial succeeds with a connection. *)
Inductive Round : Type :=
| DialFail (ready : nat)
| DialOk (c : Conn).

(** One receive of the drain loop. *)
Definition drainStep (eventBacklog : list FuncCall) (fn : FuncCall)
  : list FuncCall * list LogMsg :=
  let eventBacklog := eventBacklog ++ [fn] in
  if len eventBacklog >? backlogLimit then
    let eventBacklog := skipn evictBatch eventBacklog in
    (eventBacklog, [MsgBacklogOverflow (Z.of_nat evictBatch) (len eventBacklog)])
  else (eventBacklog, []).

(** [drainLoop]: the events received before the timer fires, then the
    timer. *)
Fixpoint drainLoop (arrivals : list FuncCall) (eventBacklog : list FuncCall)
         (drainCount : Z) : list FuncCall * list Action :=
  match arrivals with
  | [] =>
      (eventBacklog,
       ActTimeout :: (if drainCount >? 0 then [ActLog (MsgBuffered drainCount)] else []))
  | fn :: rest =>
      let (eventBacklog, logs) := drainStep eventBacklog fn in
      let (final, tr) := drainLoop rest eventBacklog (drainCount + 1) in
      (final, ActRecv fn :: map ActLog logs ++ tr)
  end.

(** The backoff after a failed dial. *)
Definition nextRetry (currentRetry : Z) : Z :=
  let currentRetry := wrapInt64 (currentRetry * 2) in
  if currentRetry >? maxRetry then maxRetry else currentRetry.

(** How the replay of the backlog ends. *)
Inductive FlushOutcome : Type :=
| FlushDone
| FlushFailed (i : nat).

(** The [range] over the backlog, from index [i] on; [k] counts the
    calls of [Write] on this connection. *)
Fixpoint flushFrom (fmt : Format) (c : Conn) (i k : nat) (sent : Z)
         (pending : list FuncCall) : FlushOutcome * nat * Z * list Action :=
  match pending with
  | [] => (FlushDone, k, sent, [])
  | fn :: rest =>
      match formatEvent fn fmt with
      | (None, logs) =>
          let '(out, k', sent', tr) := flushFrom fmt c (S i) k sent rest in
          (out, k', sent', map ActLog logs ++ tr)
      | (Some bytes, logs) =>
          if writeOk c k then
            let '(out, k', sent', tr) :=
              flushFrom fmt c (S i) (S k) (wrap64 (sent + 1)) rest in
            (out, k', sent', map ActLog logs ++ ActWrite bytes true :: tr)
          else
            (FlushFailed i, S k, sent,
             map ActLog logs
               ++ [ActWrite bytes false;
                   ActLog (MsgBacklogWriteFailed (Z.of_nat i));
                   ActClose])
      end
  end.

(** How the sending loop ends: a write failed on the event given, or the
    queue has nothing more to deliver and the worker waits on it. *)
Inductive SendOutcome : Type :=
| SendFailed (fn : FuncCall)
| SendWaiting.

(** [sendingLoop] over the events the channel delivers. *)
Fixpoint sendingLoop (fmt : Format) (c : Conn) (k : nat) (sent : Z)
         (queue : list FuncCall)
  : SendOutcome * Z * list FuncCall * list Action :=
  match queue with
  | [] => (SendWaiting, sent, [], [])
  | fn :: rest =>
      match formatEvent fn fmt with
      | (None, logs) =>
          let '(out, sent', q', tr) := sendingLoop fmt c k sent rest in
          (out, sent', q', ActRecv fn :: map ActLog logs ++ tr)
      | (Some bytes, logs) =>
          if writeOk c k then
            let sent := wrap64 (sent + 1) in
            let '(out, sent', q', tr) := sendingLoop fmt c (S k) sent rest in
            (out, sent', q',
             ActRecv fn :: map ActLog logs ++ ActWrite bytes true
               :: (if sent mod 1000 =? 0 then [ActLog (MsgSent sent)] else [])
               ++ tr)
          else
            (SendFailed fn, sent, rest,
             ActRecv fn :: map ActLog logs
               ++ [ActWrite bytes false; ActLog MsgWriteFailed])
      end
  end.

(** The transport chosen from the address. *)
Definition networkType (logAddr : string) : string :=
  if strings.Contains logAddr "/" || strings.Contains logAddr "\"
  then "unix" else "tcp".

(** What follows a successful dial, up to the replay of the backlog. *)
Definition established (network addr : string) (c : Conn) (w : Worker) : list Action :=
  [ActDial network addr dialTimeout true;
   ActLog (MsgEstablished addr (len (eventBacklog w)))]
    ++ (if String.eqb network "tcp"
        then (if keepAliveOk c then [] else [ActLog MsgKeepAliveFailed])
               ++ (if keepAlivePeriodOk c then [] else [ActLog MsgKeepAlivePeriodFailed])
        else []).

(** One turn of the outer [for] loop.  The result tells the state at the
    next turn, the events still to be delivered by the channel, what was
    done, and whether the loop turns again ([false]: the worker is
    waiting in the sending loop). *)
Definition iteration (fmt : Format) (network addr : string) (r : Round)
           (w : Worker) (queue : list FuncCall)
  : Worker * list FuncCall * list Action * bool :=
  match r with
  | DialFail ready =>
      let (backlog, tr) := drainLoop (firstn ready queue) (eventBacklog w) 0 in
      (mkWorker (nextRetry (currentRetry w)) backlog (sent w),
       skipn ready queue,
       [ActDial network addr dialTimeout false;
        ActLog (MsgDialFailed addr (currentRetry w));
        ActAfter (currentRetry w)] ++ tr,
       true)
  | DialOk c =>
      let '(out, k, sent1, ftr) := flushFrom fmt c 0 0 (sent w) (eventBacklog w) in
      match out with
      | FlushFailed i =>
          (mkWorker retryBase (skipn i (eventBacklog w)) sent1,
           queue,
           established network addr c w ++ ftr ++ [ActClose],
           true)
      | FlushDone =>
          let '(sout, sent2, queue', str) := sendingLoop fmt c k sent1 queue in
          let tr := established network addr c w ++ ftr
                      ++ [ActLog (MsgBacklogSent addr)] ++ str in
          match sout with
          | SendFailed fn =>
              (mkWorker retryBase ([] ++ [fn]) sent2, queue', tr ++ [ActClose], true)
          | SendWaiting =>
              (mkWorker retryBase [] sent2, queue', tr, false)
          end
      end
  end.

(** The outer loop, for as many turns as the environment describes. *)
Fixpoint run (fmt : Format) (network addr : string) (rounds : list Round)
         (w : Worker) (queue : list FuncCall)
  : Worker * list FuncCall * list Action :=
  match rounds with
  | [] => (w, queue, [])
  | r :: rest =>
      let '(w', queue', tr, again) := iteration fmt network addr r w queue in
      if again then
        let '(w'', queue'', tr') := run fmt network addr rest w' queue' in
        (w'', queue'', tr ++ tr')
      else (w', queue', tr)
  end.

(** [manageConnectionAndSend]: [queue] is what the channel delivers, in
    order. *)
Definition manageConnectionAndSend (l : Logger) (rounds : list Round)
           (queue : list FuncCall) : Worker * list FuncCall * list Action :=
  let logAddr := GO_ANNOTATE_LOG_TARGET in
  let start := mkWorker retryBase [] (sentCount l) in
  if String.eqb logAddr "" then
    (start, [], ActLog MsgTargetNotSet :: map ActRecv queue)
  else
    run (format_ l) (networkType logAddr) logAddr rounds start queue.

(** *** Start-up: which worker a destination gets *)

Inductive Sink : Type :=
| SinkNone                       (* logging disabled: events are discarded *)
| SinkSocket (network : string)  (* [manageConnectionAndSend] *)
| SinkFile.                      (* [processLogQueueToFile] *)

(** The choice made in [init], with the transport the socket worker
    derives from the same address. *)
Definition sinkOf (logTarget : string) : Sink :=
  if String.eqb logTarget "" then SinkNone
  else if isSocketAddress logTarget then SinkSocket (networkType logTarget)
  else SinkFile.

(** ** Vocabulary of the properties *)

(** The address contains the character. *)
Definition hasChar (c : ascii) (s : string) : Prop :=
  In c (list_ascii_of_string s).

(** A path-like address: one with a path separator. *)
Definition pathLike (addr : string) : Prop :=
  hasChar "/" addr \/ hasChar "\" addr.

(** The dynamic type of the value implements [error]. *)
Definition implementsError (i : GoValue) : bool :=
  match i with
  | VError _ _ => true
  | _ => false
  end.

(** The message of an event, when it has one. *)
Definition encoding (fmt : Format) (fn : FuncCall) : option (list byte) :=
  fst (formatEvent fn fmt).

(** The messages of the events that have one, in order. *)
Definition encodings (fmt : Format) (events : list FuncCall) : list (list byte) :=
  flat_map (fun fn => match encoding fmt fn with Some b => [b] | None => [] end) events.

(** What the file worker hands to [Write] for an event: its message, or
    nothing when there is none. *)
Definition payload (fmt : Format) (fn : FuncCall) : list byte :=
  match encoding fmt fn with
  | Some b => b
  | None => []
  end.

Definition isFileWriteFailed (m : LogMsg) : bool :=
  match m with
  | MsgFileWriteFailed => true
  | _ => false
  end.

(** The outcome of the dial in a round. *)
Definition roundOk (r : Round) : bool :=
  match r with
  | DialFail _ => false
  | DialOk _ => true
  end.

(** Sample data for the examples: an event, a marshaler that is not
    called, a Unicode table that is not consulted, and a connection
    whose first [n] writes succeed. *)
Definition sampleEvent (n : Z) : FuncCall :=
  mkFuncCall "f_Enter" [strconv.FormatUint n] [] n.

Definition noMarshal (e : TimedEvent) : list byte + string := inr "unused"%string.

Definition noSyntax (fn : FuncCall) : string := ""%string.

Definition noTable (r : Z) : bool := false.

Definition failingAfter (n : nat) : Conn :=
  mkConn true true (fun k => (k <? n)%nat).

(** A write that succeeded, as [writes] reports it. *)
Definition okWrite (b : list byte) : list byte * bool := (b, true).

(** The number of failed dials at the end of a sequence of outcomes. *)
Fixpoint failedSince (k : nat) (outcomes : list bool) : nat :=
  match outcomes with
  | [] => k
  | true :: rest => failedSince 0 rest
  | false :: rest => failedSince (S k) rest
  end.

(** The delay the specification gives after [k] consecutive failed
    dials: the base doubled [k] times, capped. *)
Definition backoffDelay (k : nat) : Z :=
  Z.min (2 ^ Z.of_nat k * retryBase) maxRetry.

(** The waits the specification gives for a sequence of dial outcomes:
    one per failed dial. *)
Fixpoint backoffSchedule (k : nat) (outcomes : list bool) : list Z :=
  match outcomes with
  | [] => []
  | true :: rest => backoffSchedule 0 rest
  | false :: rest => backoffDelay k :: backoffSchedule (S k) rest
  end.

(** *** Vocabulary of the further properties *)

(** [Log] called for each event in turn, and what the calls print. *)
Fixpoint logAll (l : Logger) (events : list FuncCall) : Logger * list LogMsg :=
  match events with
  | [] => (l, [])
  | fn :: rest =>
      let (l1, d1) := Log l fn in
      let (l2, d2) := logAll l1 rest in
      (l2, d1 ++ d2)
  end.

(** The diagnostic of [Log] for a dropped event. *)
Definition dropped (fn : FuncCall) : LogMsg :=
  if negb (String.eqb GO_ANNOTATE_LOG_TARGET "")
     && isSocketAddress GO_ANNOTATE_LOG_TARGET
  then MsgSocketBufferFull (Name fn)
  else MsgBufferFull (Name fn).

(** The free places of a channel. *)
Definition room (ch : Chan) : nat := Z.to_nat (cap ch - len (buf ch)).

(** [n] calls of [ID] in turn, and the ids they return. *)
Fixpoint takeIDs (n : nat) (l : Logger) : Logger * list Z :=
  match n with
  | O => (l, [])
  | S k =>
      let (l1, id) := ID l in
      let (l2, ids) := takeIDs k l1 in
      (l2, id :: ids)
  end.

(** The messages whose write succeeded, in the order of the writes. *)
Definition delivered (tr : list Action) : list (list byte) :=
  flat_map (fun a => match a with ActWrite b true => [b] | _ => [] end) tr.

Definition isOverflow (m : LogMsg) : bool :=
  match m with
  | MsgBacklogOverflow _ _ => true
  | _ => false
  end.

(** The number of events a trace reports as evicted from the backlog. *)
Definition noEviction (tr : list Action) : Prop :=
  filter isOverflow (logged tr) = [].

(** A value of a type the formatter handles itself, without [reflect]. *)
Definition handled (i : GoValue) : bool :=
  match i with
  | VOther _ => false
  | _ => true
  end.

(** The string has no line break. *)
Definition oneLine (s : string) : Prop := ~ hasChar newline s.

(** The two digits of each byte, one byte after the other. *)
Definition hexString (src : list byte) : string :=
  String.concat "" (map (fun b => hex.encodeByte (byteZ b)) src).

(** The value of a lowercase hexadecimal digit. *)
Definition unhexDigit (c : ascii) : option Z :=
  let n := asciiZ c in
  if strconv.between 48 n 57 then Some (n - 48)
  else if strconv.between 97 n 102 then Some (n - 87)
  else None.

(** The bytes a string of digit pairs stands for. *)
Fixpoint unhex (s : string) : option (list byte) :=
  match s with
  | EmptyString => Some []
  | String hi (String lo rest) =>
      match unhexDigit hi, unhexDigit lo, unhex rest with
      | Some h, Some l, Some bs => Some (byteOfZ (16 * h + l) :: bs)
      | _, _, _ => None
      end
  | String _ EmptyString => None
  end.

(** A string of printable ASCII characters other than the double quote
    and the backslash. *)
Definition plainASCII (s : string) : Prop :=
  Forall (fun c => 32 <= asciiZ c <= 126 /\ c <> dquote /\ c <> backslash)
         (list_ascii_of_string s).

(** *** The [error] case of [format], with the call of [Error]

    [format] takes the text of [v.Error()] as given.  The call itself can
    panic, and neither [format] nor the emitters that call it recover:
    the panic leaves them. *)

(** A call returns, or panics. *)
Inductive Outcome (A : Type) : Type :=
| Returns (a : A)
| Panics.

Arguments Returns {A} a.
Arguments Panics {A}.

(** The [Error] method of a pointer type [*T] whose values reach the
    [error] case: declared on [T], or on [*T].  The body gets the
    receiver; for a method on [*T] that is the pointer, [None] when it
    is nil. *)
Inductive ErrorMethod (T : Type) : Type :=
| OnValue (body : T -> Outcome string)            (* [func (e T) Error() string] *)
| OnPointer (body : option T -> Outcome string).  (* [func (e *T) Error() string] *)

Arguments OnValue {T} body.
Arguments OnPointer {T} body.

(** [v.Error()] for a pointer [v]: a method declared on [T] is called on
    [*v], and the dereference of a nil pointer panics. *)
Definition callError {T : Type} (m : ErrorMethod T) (v : option T) : Outcome string :=
  match m with
  | OnValue body => match v with Some x => body x | None => Panics end
  | OnPointer body => body v
  end.

(** [case error: return fmt.Sprintf(..., v.Error())], for the pointer
    [v] at address [addr]. *)
Definition formatError {T : Type} (m : ErrorMethod T) (addr : Z) (v : option T)
  : Outcome string :=
  match callError m v with
  | Returns msg => Returns (format (VError (RPtr addr) msg))
  | Panics => Panics
  end.

(** [type E struct{ msg string }] with
    [func (e *E) Error() string { return e.msg }]: the method reads a
    field of its receiver. *)
Definition fieldError : ErrorMethod string :=
  OnPointer (fun e => match e with Some msg => Returns msg | None => Panics end).

(** The same type with [func (e E) Error() string { return e.msg }]. *)
Definition valueError : ErrorMethod string :=
  OnValue (fun msg => Returns msg).

(** [func (e *E) Error() string { return ... }] with a constant text: the
    method does not touch its receiver. *)
Definition constantError (text : string) : ErrorMethod string :=
  OnPointer (fun _ => Returns text).

(** ** Properties *)

(** *** Strings *)

Lemma Contains_char (c : ascii) (s : string) :
  strings.Contains s (str1 c) = true <-> hasChar c s.
Proof.
  unfold hasChar, str1.
  induction s as [|a s IH]; simpl.
  - split; [discriminate | tauto].
  - destruct (ascii_dec c a) as [->|Hne].
    + destruct s; simpl; split; auto.
    + rewrite IH. split; [tauto|].
      intros [Heq|Hin]; [congruence | exact Hin].
Qed.

Lemma Contains_char_false (c : ascii) (s : string) :
  strings.Contains s (str1 c) = false <-> ~ hasChar c s.
Proof.
  rewrite <- Contains_char.
  destruct (strings.Contains s (str1 c)); split; congruence.
Qed.

Lemma Join_concat (elems : list string) (sep : string) :
  strings.Join elems sep = String.concat sep elems.
Proof.
  induction elems as [|x [|y rest] IH]; simpl in *; try reflexivity.
  now rewrite IH.
Qed.

(** *** Destination syntax *)

Lemma pathLike_networkType (addr : string) :
  pathLike addr -> networkType addr = "unix"%string.
Proof.
  unfold pathLike, networkType.
  rewrite <- (Contains_char "/"), <- (Contains_char "\"). unfold str1.
  intros [H|H]; rewrite H; [reflexivity | now rewrite orb_true_r].
Qed.

Lemma isSocketAddress_iff (addr : string) :
  isSocketAddress addr = true
  <-> hasChar ":" addr /\ ~ hasChar "/" addr /\ ~ hasChar "\" addr.
Proof.
  unfold isSocketAddress.
  rewrite !andb_true_iff, !negb_true_iff.
  rewrite <- (Contains_char ":"), <- (Contains_char_false "/"),
    <- (Contains_char_false "\").
  unfold str1. tauto.
Qed.

(** C8.  An address selects the stream-socket worker exactly when it
    contains a colon and neither a slash nor a backslash, and the
    transport is then TCP; every address with a slash or a backslash
    selects the file worker, and is the one the socket worker would take
    for a local-domain socket. *)
Theorem destination_syntax (addr : string) :
  (isSocketAddress addr = true
   <-> hasChar ":" addr /\ ~ hasChar "/" addr /\ ~ hasChar "\" addr)
  /\ ((exists network, sinkOf addr = SinkSocket network)
      <-> hasChar ":" addr /\ ~ hasChar "/" addr /\ ~ hasChar "\" addr)
  /\ (isSocketAddress addr = true -> sinkOf addr = SinkSocket "tcp")
  /\ (pathLike addr ->
      isSocketAddress addr = false
      /\ sinkOf addr = SinkFile
      /\ networkType addr = "unix"%string).
Proof.
  pose proof (isSocketAddress_iff addr) as Hiff.
  assert (Htcp : isSocketAddress addr = true -> sinkOf addr = SinkSocket "tcp").
  { intros Hs. unfold sinkOf. rewrite Hs.
    destruct addr as [|a addr]; [discriminate Hs|]. simpl String.eqb.
    apply Hiff in Hs. destruct Hs as (_ & Hn1 & Hn2).
    apply Contains_char_false in Hn1, Hn2. unfold str1 in Hn1, Hn2.
    unfold networkType. now rewrite Hn1, Hn2. }
  assert (Hfile : pathLike addr -> isSocketAddress addr = false).
  { intros Hp. apply not_true_is_false. intros Hs.
    apply Hiff in Hs. unfold pathLike in Hp. tauto. }
  split; [exact Hiff|].
  split; [|split; [exact Htcp|]].
  - rewrite <- Hiff. split.
    + intros [network Hn]. unfold sinkOf in Hn.
      destruct (String.eqb addr ""); [discriminate|].
      destruct (isSocketAddress addr); [reflexivity | discriminate].
    + intros Hs. exists "tcp"%string. now apply Htcp.
  - intros Hp. split; [now apply Hfile|].
    split; [|now apply pathLike_networkType].
    unfold sinkOf. rewrite (Hfile Hp).
    destruct addr; [|reflexivity].
    destruct Hp as [[]|[]].
Qed.

(** *** The text encoding *)

(** C7.  The text of an event is its name followed by the arguments in
    parentheses, joined by a comma and a space, and, when there are
    results, by an equals sign and the results in parentheses, joined
    the same way; the text message is that string followed by one
    newline. *)
Theorem text_encoding (fn : FuncCall) :
  (Results fn = [] ->
   FuncCall_String fn
   = (Name fn ++ "(" ++ String.concat ", " (Args fn) ++ ")")%string)
  /\ (Results fn <> [] ->
      FuncCall_String fn
      = (Name fn ++ "(" ++ String.concat ", " (Args fn) ++ ") = ("
           ++ String.concat ", " (Results fn) ++ ")")%string)
  /\ formatEvent fn FormatText
     = (Some (list_byte_of_string (FuncCall_String fn) ++ [x0a]), [])
  /\ (exists body, encoding FormatText fn = Some (body ++ [x0a])
                   /\ body = list_byte_of_string (FuncCall_String fn)).
Proof.
  split; [|split; [|split]].
  - unfold FuncCall_String. rewrite !Join_concat. intros ->. reflexivity.
  - unfold FuncCall_String. rewrite !Join_concat. intros Hne.
    destruct (Results fn) as [|r rs]; [congruence | reflexivity].
  - reflexivity.
  - eexists. split; reflexivity.
Qed.

Example text_encoding_with_results :
  formatEvent (mkFuncCall "test_func" ["1"; "2"]%string ["3"]%string 0) FormatText
  = (Some (list_byte_of_string "test_func(1, 2) = (3)" ++ [x0a]), []).
Proof. reflexivity. Qed.

Example text_encoding_without_results :
  formatEvent (mkFuncCall "test_func" ["1"; "2"]%string [] 0) FormatText
  = (Some (list_byte_of_string "test_func(1, 2)" ++ [x0a]), []).
Proof. reflexivity. Qed.

(** *** The emitter API *)

(** C2.  [Log] never waits and has no error to report: it always yields
    a logger and its diagnostics.  With room in the queue the event is
    appended and nothing is printed; with a full queue the queue is
    left as it was and exactly one diagnostic, naming the event, is
    printed. *)
Theorem Log_nonblocking (l : Logger) (fn : FuncCall) :
  exists l' diag,
    Log l fn = (l', diag)
    /\ counter l' = counter l /\ format_ l' = format_ l
    /\ sentCount l' = sentCount l
    /\ cap (eventBuffer l') = cap (eventBuffer l)
    /\ (len (buf (eventBuffer l)) < cap (eventBuffer l) ->
        buf (eventBuffer l') = buf (eventBuffer l) ++ [fn] /\ diag = [])
    /\ (cap (eventBuffer l) <= len (buf (eventBuffer l)) ->
        l' = l
        /\ (diag = [MsgSocketBufferFull (Name fn)]
            \/ diag = [MsgBufferFull (Name fn)])).
Proof.
  unfold Log.
  destruct (len (buf (eventBuffer l)) <? cap (eventBuffer l)) eqn:Hroom.
  - apply Z.ltb_lt in Hroom.
    eexists _, _. split; [reflexivity|]. simpl.
    repeat split; try reflexivity; lia.
  - apply Z.ltb_ge in Hroom.
    destruct (negb (String.eqb GO_ANNOTATE_LOG_TARGET "")
              && isSocketAddress GO_ANNOTATE_LOG_TARGET);
      eexists _, _; (split; [reflexivity|]);
      repeat split; try reflexivity; try lia; intros; auto.
Qed.


(** *** The formatter *)

Lemma append_nonempty (a b : string) : a <> ""%string -> (a ++ b)%string <> ""%string.
Proof. destruct a; [congruence | discriminate]. Qed.

Lemma FormatUint_nonempty (v : Z) : strconv.FormatUint v <> ""%string.
Proof.
  unfold strconv.FormatUint, NilZero.string_of_uint.
  destruct (N.to_uint (Z.to_N v)); discriminate.
Qed.

Lemma FormatInt_nonempty (v : Z) : strconv.FormatInt v <> ""%string.
Proof.
  unfold strconv.FormatInt, NilZero.string_of_int, NilZero.string_of_uint.
  destruct (Z.to_int v) as [d|d]; [destruct d|]; discriminate.
Qed.

Lemma fixed_nonempty (neg : bool) (prec scaled : Z) :
  strconv.fixed neg prec scaled <> ""%string.
Proof.
  unfold strconv.fixed. destruct neg; [discriminate|].
  simpl. apply append_nonempty, FormatUint_nonempty.
Qed.

Lemma FormatFloat_f_nonempty (f : spec_float) (prec : Z) :
  strconv.FormatFloat_f f prec <> ""%string.
Proof.
  destruct f as [s|s| |s m e]; simpl;
    try apply fixed_nonempty; try destruct s; discriminate.
Qed.

Lemma append_empty_r (a : string) : (a ++ "")%string = a.
Proof. induction a; simpl; congruence. Qed.

Lemma append_assoc (a b c : string) :
  ((a ++ b) ++ c)%string = (a ++ (b ++ c))%string.
Proof. induction a; simpl; congruence. Qed.

Lemma AppendEncode_prefix (src : list byte) (dst : string) :
  exists rest, hex.AppendEncode dst src = (dst ++ rest)%string.
Proof.
  revert dst. induction src as [|b src IH]; intros dst; simpl.
  - exists ""%string. symmetry. apply append_empty_r.
  - destruct (IH (dst ++ hex.encodeByte (byteZ b))%string) as [rest ->].
    eexists. apply append_assoc.
Qed.

Lemma appendHex_nonempty (dst : string) (src : list byte) :
  dst <> ""%string -> appendHex dst src <> ""%string.
Proof.
  intros Hd. unfold appendHex. destruct (len src =? 0); [exact Hd|].
  destruct (AppendEncode_prefix src dst) as [rest ->].
  now apply append_nonempty.
Qed.

Lemma appendSegments_nonempty (v : list (list byte)) (dst : string) (i : Z) :
  dst <> ""%string -> appendSegments dst i v <> ""%string.
Proof.
  revert dst i. induction v as [|b v IH]; intros dst i Hd; simpl; [exact Hd|].
  apply IH, appendHex_nonempty.
  destruct (0 <? i); [now apply append_nonempty | exact Hd].
Qed.

Lemma of_Z_nonempty (z : Z) : HexString.of_Z z <> ""%string.
Proof. destruct z; discriminate. Qed.

(** The values whose formatted form is empty. *)
Lemma format_empty_iff (i : GoValue) :
  format i = ""%string
  <-> i = VNil \/ i = VOther (RString "") \/ i = VOther (ROpaque "").
Proof.
  split.
  - destruct i as [|v|v|v|v|v|v|v|v|v|v|v|v|v|v|v|v|v|v|v|r msg|r]; simpl;
      try (intros H; exfalso; revert H;
           first [ apply FormatInt_nonempty | apply FormatUint_nonempty
                 | apply FormatFloat_f_nonempty ]).
    + auto.
    + destruct (len v =? 0); [discriminate|].
      intros H; exfalso; revert H. now apply appendHex_nonempty.
    + destruct (len v =? 0); [discriminate|].
      intros H; exfalso; revert H. now apply appendSegments_nonempty.
    + intros H; exfalso; revert H. now apply appendHex_nonempty.
    + intros H; exfalso; revert H. now apply appendHex_nonempty.
    + destruct v; [|discriminate].
      intros H; exfalso; revert H. now apply appendHex_nonempty.
    + discriminate.
    + destruct v; discriminate.
    + discriminate.
    + destruct r as [addr|n e|n e|n|e|t|s|s]; simpl; try discriminate.
      * destruct (addr =? 0); [discriminate|].
        intros H; exfalso; revert H. apply of_Z_nonempty.
      * intros ->. auto.
      * intros ->. auto.
  - intros [->|[->| ->]]; reflexivity.
Qed.

(** C5.  On the inputs the specification lists, [format] gives the
    strings the specification lists.  It does not give a string for
    every value: the [error] case comes before the reflective nil check,
    so for a nil pointer of a type that implements [error] the method
    [Error] is called on the nil pointer, and when the method is declared
    on the value type, or reads its receiver, the call panics and the
    panic leaves [format].  Where [Error] returns, [format] returns its
    text, quoted. *)
Theorem format_examples_and_error_panic :
  format (VInt 42) = "42"%string
  /\ format (VFloat64 (float64Const 314159 100000)) = "3.141590"%string
  /\ format (VString "hello") = String dquote ("hello" ++ str1 dquote)
  /\ format (VBool true) = "1"%string
  /\ format (VBool false) = "0"%string
  /\ format (VBytes [x48; x65; x6c; x6c; x6f]) = "0x48656c6c6f"%string
  /\ format (VBytes []) = "0x"%string
  /\ format VNil = ""%string
  /\ formatError fieldError 0 None = Panics
  /\ formatError valueError 0 None = Panics
  /\ (forall (T : Type) (body : T -> Outcome string) (addr : Z),
        formatError (OnValue body) addr None = Panics)
  /\ (forall (T : Type) (m : ErrorMethod T) (addr : Z) (v : option T),
        formatError m addr v
        = match callError m v with
          | Returns msg => Returns (strconv.Quote isPrintTable msg)
          | Panics => Panics
          end)
  /\ (forall (text : string) (addr : Z) (v : option string),
        formatError (constantError text) addr v
        = Returns (strconv.Quote isPrintTable text))
  /\ formatError fieldError 824633802816 (Some "boom"%string)
     = Returns (String dquote ("boom" ++ str1 dquote))
  /\ formatError valueError 824633802816 (Some "boom"%string)
     = Returns (String dquote ("boom" ++ str1 dquote)).
Proof.
  do 8 (split; [vm_compute; reflexivity|]).
  split; [reflexivity|]. split; [reflexivity|]. split; [reflexivity|].
  split; [intros T m addr v; unfold formatError; destruct (callError m v); reflexivity|].
  split; [reflexivity|].
  split; vm_compute; reflexivity.
Qed.

Example format_int64_max :
  format (VInt64 9223372036854775807) = "9223372036854775807"%string.
Proof. vm_compute. reflexivity. Qed.

Example format_float32 :
  format (VFloat32 (float32Const 314 100)) = "3.140000"%string.
Proof. vm_compute. reflexivity. Qed.

Example format_nil_int_pointer : format (VOther (RPtr 0)) = "<nil>"%string.
Proof. reflexivity. Qed.

(** C10, as the code has it.  [format] gives the empty string for the
    nil interface value and, besides it, only for a value of a type the
    switch does not name that [fmt] prints as nothing; a typed nil
    pointer whose type does not implement [error] - a nil [*[32]uint8]
    among them - gives [<nil>], which is not the empty string. *)
Theorem format_nil_and_nil_pointers (i : GoValue) :
  format VNil = ""%string
  /\ (format i = ""%string
      <-> i = VNil \/ i = VOther (RString "") \/ i = VOther (ROpaque ""))
  /\ format (VPtrArray32Uint8 None) = "<nil>"%string
  /\ (typedNilPointer i = true /\ implementsError i = false ->
      format i = "<nil>"%string /\ format i <> format VNil).
Proof.
  split; [reflexivity|]. split; [apply format_empty_iff|].
  split; [reflexivity|].
  intros [Hnil Herr].
  assert (H : format i = "<nil>"%string).
  { destruct i as [|v|v|v|v|v|v|v|v|v|v|v|v|v|v|v|v|v|v|v|r msg|r];
      try discriminate.
    - destruct v; [discriminate | reflexivity].
    - destruct r; try discriminate. simpl in *. now rewrite Hnil. }
  split; [exact H|]. rewrite H. discriminate.
Qed.

(** *** Traces *)

Lemma flat_map_ActLog {B : Type} (f : Action -> list B) (logs : list LogMsg) :
  (forall m, f (ActLog m) = []) -> flat_map f (map ActLog logs) = [].
Proof.
  intros Hf. induction logs as [|m logs IH]; simpl; [reflexivity|].
  now rewrite Hf, IH.
Qed.

Lemma logged_ActLog (logs : list LogMsg) : logged (map ActLog logs) = logs.
Proof. induction logs; simpl; congruence. Qed.

(** Push an observation through the constructions a trace is made of. *)
Ltac observe :=
  unfold received, writes, dials, waits, logged in *;
  repeat (rewrite ?flat_map_app, ?(flat_map_ActLog _ _ (fun _ => eq_refl));
          cbn [flat_map app]).

(** *** The file worker *)

Lemma fileLoop_received (fmt : Format) (ok : nat -> bool) (events : list FuncCall) :
  forall k, received (fileLoop fmt ok k events) = events.
Proof.
  induction events as [|fn rest IH]; intros k; simpl; [reflexivity|].
  destruct (formatEvent fn fmt) as [bytes logs]. observe.
  destruct (ok k); simpl; now rewrite IH.
Qed.

Lemma fileLoop_writes (fmt : Format) (ok : nat -> bool) (events : list FuncCall) :
  forall k,
    writes (fileLoop fmt ok k events)
    = combine (map (payload fmt) events) (map ok (seq k (List.length events))).
Proof.
  induction events as [|fn rest IH]; intros k; simpl; [reflexivity|].
  unfold payload at 1, encoding.
  destruct (formatEvent fn fmt) as [bytes logs]. observe. simpl.
  destruct (ok k); simpl; now rewrite IH.
Qed.

Lemma formatEvent_logs (fn : FuncCall) (fmt : Format) :
  filter isFileWriteFailed (snd (formatEvent fn fmt)) = [].
Proof.
  destruct fmt; simpl; try reflexivity.
  - destruct (json_Marshal (toTimedEvent fn)); reflexivity.
  - destruct (cbor_Marshal (toTimedEvent fn)); reflexivity.
Qed.

Lemma fileLoop_failures (fmt : Format) (ok : nat -> bool) (events : list FuncCall) :
  forall k,
    filter isFileWriteFailed (logged (fileLoop fmt ok k events))
    = flat_map (fun i => if ok i then [] else [MsgFileWriteFailed])
        (seq k (List.length events)).
Proof.
  induction events as [|fn rest IH]; intros k; simpl; [reflexivity|].
  pose proof (formatEvent_logs fn fmt) as Hlogs.
  destruct (formatEvent fn fmt) as [bytes logs]. simpl in Hlogs.
  observe. rewrite logged_ActLog, !filter_app, Hlogs, IH.
  destruct (ok k); reflexivity.
Qed.

Lemma fileLoop_app (fmt : Format) (ok : nat -> bool) (a b : list FuncCall) :
  forall k,
    fileLoop fmt ok k (a ++ b)
    = fileLoop fmt ok k a ++ fileLoop fmt ok (k + List.length a) b.
Proof.
  induction a as [|fn a IH]; intros k; simpl.
  - now rewrite Nat.add_0_r.
  - destruct (formatEvent fn fmt) as [bytes logs].
    rewrite IH, <- Nat.add_succ_comm.
    repeat (rewrite <- ?app_assoc; cbn [app]). reflexivity.
Qed.

(** C9.  The file worker takes every event the queue delivers and hands
    exactly one message per event to the file, in order, whatever the
    outcome of the earlier writes; each failed write leaves one line in
    the log and nothing else: after any events, failed or not, the
    worker goes on with those that follow. *)
Theorem file_worker_continues (l : Logger) (ok : nat -> bool)
        (events more : list FuncCall) :
  let tr := processLogQueueToFile l ok events in
  received tr = events
  /\ writes tr
     = combine (map (payload (format_ l)) events)
         (map ok (seq 0 (List.length events)))
  /\ List.length (writes tr) = List.length events
  /\ filter isFileWriteFailed (logged tr)
     = flat_map (fun i => if ok i then [] else [MsgFileWriteFailed])
         (seq 0 (List.length events))
  /\ processLogQueueToFile l ok (events ++ more)
     = tr ++ fileLoop (format_ l) ok (List.length events) more.
Proof.
  unfold processLogQueueToFile. cbv zeta.
  split; [apply fileLoop_received|].
  split; [apply fileLoop_writes|].
  split.
  - rewrite fileLoop_writes, length_combine, !length_map, length_seq.
    apply Nat.min_id.
  - split; [apply fileLoop_failures|]. apply (fileLoop_app _ _ _ _ 0%nat).
Qed.

(** *** The backlog during a disconnection *)

Lemma len_app {A : Type} (a b : list A) : len (a ++ b) = len a + len b.
Proof. unfold len. rewrite length_app. lia. Qed.

Lemma len_skipn {A : Type} (n : nat) (a : list A) :
  len (skipn n a) = Z.max 0 (len a - Z.of_nat n).
Proof. unfold len. rewrite length_skipn. lia. Qed.

Lemma drainStep_keep (backlog : list FuncCall) (fn : FuncCall) :
  len (backlog ++ [fn]) <= backlogLimit ->
  drainStep backlog fn = (backlog ++ [fn], []).
Proof.
  intros H. unfold drainStep.
  destruct (len (backlog ++ [fn]) >? backlogLimit) eqn:E; [|reflexivity].
  apply Z.gtb_lt in E. lia.
Qed.

Lemma drainStep_evict (backlog : list FuncCall) (fn : FuncCall) :
  backlogLimit < len (backlog ++ [fn]) ->
  drainStep backlog fn
  = (skipn evictBatch (backlog ++ [fn]),
     [MsgBacklogOverflow 2000 (len (backlog ++ [fn]) - 2000)]).
Proof.
  intros H. unfold drainStep.
  destruct (len (backlog ++ [fn]) >? backlogLimit) eqn:E.
  - rewrite len_skipn. unfold backlogLimit, evictBatch in *.
    do 3 f_equal. lia.
  - rewrite Z.gtb_ltb in E. apply Z.ltb_ge in E. lia.
Qed.

Lemma drainStep_bounded (backlog : list FuncCall) (fn : FuncCall) :
  len backlog <= backlogLimit ->
  len (fst (drainStep backlog fn)) <= backlogLimit.
Proof.
  intros H.
  destruct (Z_le_gt_dec (len (backlog ++ [fn])) backlogLimit) as [Hle|Hgt].
  - now rewrite drainStep_keep.
  - rewrite drainStep_evict by lia. cbn [fst]. rewrite len_skipn.
    rewrite len_app in *. unfold backlogLimit, evictBatch, len in *.
    cbn [List.length] in *. lia.
Qed.

Lemma drainStep_suffix (backlog : list FuncCall) (fn : FuncCall) :
  exists k, fst (drainStep backlog fn) = skipn k (backlog ++ [fn])
            /\ (k <= List.length (backlog ++ [fn]))%nat
            /\ (k = 0%nat \/ k = evictBatch).
Proof.
  destruct (Z_le_gt_dec (len (backlog ++ [fn])) backlogLimit) as [Hle|Hgt].
  - exists 0%nat. rewrite drainStep_keep by exact Hle. cbn [fst skipn].
    repeat split; auto; lia.
  - exists evictBatch. rewrite drainStep_evict by lia. cbn [fst].
    repeat split; auto.
    unfold backlogLimit, evictBatch, len in *. lia.
Qed.

Lemma drainLoop_bounded (arrivals : list FuncCall) :
  forall backlog count,
    len backlog <= backlogLimit ->
    len (fst (drainLoop arrivals backlog count)) <= backlogLimit.
Proof.
  induction arrivals as [|fn rest IH]; intros backlog count H; simpl; [exact H|].
  pose proof (drainStep_bounded backlog fn H) as Hb.
  destruct (drainStep backlog fn) as [b logs]. simpl in Hb.
  specialize (IH b (count + 1) Hb).
  destruct (drainLoop rest b (count + 1)) as [final tr]. exact IH.
Qed.

Lemma drainLoop_suffix (arrivals : list FuncCall) :
  forall backlog count,
  exists k, fst (drainLoop arrivals backlog count) = skipn k (backlog ++ arrivals)
            /\ (k <= List.length (backlog ++ arrivals))%nat
            /\ Nat.divide evictBatch k.
Proof.
  induction arrivals as [|fn rest IH]; intros backlog count; simpl.
  - exists 0%nat. rewrite app_nil_r. repeat split; [lia | apply Nat.divide_0_r].
  - destruct (drainStep_suffix backlog fn) as (k & Hk & Hle & Hdiv).
    destruct (drainStep backlog fn) as [b logs]. cbn [fst] in Hk. subst b.
    destruct (IH (skipn k (backlog ++ [fn])) (count + 1)) as (k' & Hk' & Hle' & Hdiv').
    destruct (drainLoop rest (skipn k (backlog ++ [fn])) (count + 1)) as [final tr].
    cbn [fst] in *. subst final.
    exists (k' + k)%nat.
    replace (backlog ++ fn :: rest) with ((backlog ++ [fn]) ++ rest)
      by now rewrite <- app_assoc.
    rewrite <- skipn_skipn, (skipn_app k (backlog ++ [fn]) rest).
    replace (k - List.length (backlog ++ [fn]))%nat with 0%nat by lia.
    split; [reflexivity|]. split.
    + rewrite length_app, length_skipn in Hle'. rewrite length_app. lia.
    + apply Nat.divide_add_r; [exact Hdiv'|].
      destruct Hdiv as [-> | ->]; [apply Nat.divide_0_r | apply Nat.divide_refl].
Qed.

Lemma iteration_backlog_bounded (fmt : Format) (network addr : string)
      (r : Round) (w : Worker) (queue : list FuncCall) :
  len (eventBacklog w) <= backlogLimit ->
  len (eventBacklog (fst (fst (fst (iteration fmt network addr r w queue)))))
  <= backlogLimit.
Proof.
  intros H. unfold iteration. destruct r as [ready|c].
  - pose proof (drainLoop_bounded (firstn ready queue) (eventBacklog w) 0 H) as Hb.
    destruct (drainLoop (firstn ready queue) (eventBacklog w) 0) as [b tr].
    exact Hb.
  - destruct (flushFrom fmt c 0 0 (sent w) (eventBacklog w)) as [[[out k] sent1] ftr].
    destruct out as [|i].
    + destruct (sendingLoop fmt c k sent1 queue) as [[[sout sent2] queue'] str].
      destruct sout; cbn [fst eventBacklog]; apply Z.leb_le; reflexivity.
    + cbn [fst eventBacklog]. rewrite len_skipn. unfold backlogLimit in *. lia.
Qed.

Lemma run_backlog_bounded (fmt : Format) (network addr : string)
      (rounds : list Round) :
  forall (w : Worker) (queue : list FuncCall),
    len (eventBacklog w) <= backlogLimit ->
    len (eventBacklog (fst (fst (run fmt network addr rounds w queue))))
    <= backlogLimit.
Proof.
  induction rounds as [|r rest IH]; intros w queue H; simpl; [exact H|].
  pose proof (iteration_backlog_bounded fmt network addr r w queue H) as Hi.
  destruct (iteration fmt network addr r w queue) as [[[w' queue'] tr] again].
  cbn [fst] in Hi. destruct again; [|exact Hi].
  specialize (IH w' queue' Hi).
  destruct (run fmt network addr rest w' queue') as [[w'' queue''] tr'].
  exact IH.
Qed.

Lemma worker_backlog_bounded (l : Logger) (rounds : list Round)
      (queue : list FuncCall) :
  len (eventBacklog (fst (fst (manageConnectionAndSend l rounds queue))))
  <= backlogLimit.
Proof.
  unfold manageConnectionAndSend.
  destruct (String.eqb GO_ANNOTATE_LOG_TARGET "").
  - apply Z.leb_le. reflexivity.
  - apply run_backlog_bounded. apply Z.leb_le. reflexivity.
Qed.

Lemma drainLoop_cons (fn : FuncCall) (rest backlog : list FuncCall) (count : Z) :
  fst (drainLoop (fn :: rest) backlog count)
  = fst (drainLoop rest (fst (drainStep backlog fn)) (count + 1)).
Proof.
  cbn [drainLoop]. destruct (drainStep backlog fn) as [b logs].
  cbn [fst]. destruct (drainLoop rest b (count + 1)) as [final tr]. reflexivity.
Qed.

Lemma drainLoop_fold (arrivals : list FuncCall) :
  forall backlog count,
    fst (drainLoop arrivals backlog count)
    = fold_left (fun b fn => fst (drainStep b fn)) arrivals backlog.
Proof.
  induction arrivals as [|fn rest IH]; intros backlog count; [reflexivity|].
  rewrite drainLoop_cons. cbn [fold_left]. apply IH.
Qed.

Lemma drainLoop_keeps_all (arrivals : list FuncCall) :
  forall backlog count,
    len (backlog ++ arrivals) <= backlogLimit ->
    fst (drainLoop arrivals backlog count) = backlog ++ arrivals.
Proof.
  induction arrivals as [|fn rest IH]; intros backlog count H.
  - cbn [drainLoop fst]. now rewrite app_nil_r.
  - rewrite drainLoop_cons, drainStep_keep.
    + cbn [fst]. rewrite IH; rewrite <- app_assoc; [reflexivity | exact H].
    + rewrite !len_app in *. unfold len in *. cbn [List.length] in *. lia.
Qed.

(** What a drain keeps: the backlog and the arrivals without some of the
    oldest, a whole number of batches, and never fewer than 8001 events
    once anything was dropped. *)
Lemma drainLoop_kept (arrivals : list FuncCall) :
  forall backlog count,
  exists k, fst (drainLoop arrivals backlog count) = skipn k (backlog ++ arrivals)
            /\ (k <= List.length (backlog ++ arrivals))%nat
            /\ Nat.divide evictBatch k
            /\ (k = 0%nat \/ 8000 < len (fst (drainLoop arrivals backlog count))).
Proof.
  induction arrivals as [|fn rest IH]; intros backlog count.
  - exists 0%nat. cbn [drainLoop fst skipn]. rewrite app_nil_r.
    repeat split; [lia | apply Nat.divide_0_r | now left].
  - rewrite drainLoop_cons.
    replace (backlog ++ fn :: rest) with ((backlog ++ [fn]) ++ rest)
      by now rewrite <- app_assoc.
    destruct (Z_le_gt_dec (len (backlog ++ [fn])) backlogLimit) as [Hle|Hgt].
    + rewrite drainStep_keep by exact Hle. cbn [fst]. apply IH.
    + rewrite drainStep_evict by lia. cbn [fst].
      destruct (IH (skipn evictBatch (backlog ++ [fn])) (count + 1))
        as (k & Hk & Hle & Hdiv & Hkept).
      assert (Hlong : (evictBatch <= List.length (backlog ++ [fn]))%nat).
      { unfold backlogLimit, evictBatch, len in *. lia. }
      exists (k + evictBatch)%nat.
      rewrite <- skipn_skipn, (skipn_app evictBatch (backlog ++ [fn]) rest).
      replace (evictBatch - List.length (backlog ++ [fn]))%nat with 0%nat by lia.
      split; [exact Hk|]. split.
      { rewrite length_app, length_skipn in Hle. rewrite length_app. lia. }
      split; [apply Nat.divide_add_r; [exact Hdiv | apply Nat.divide_refl]|].
      right. destruct Hkept as [-> | Hkept]; [|exact Hkept].
      rewrite Hk. cbn [skipn]. rewrite len_app, len_skipn.
      unfold backlogLimit, evictBatch, len in *. lia.
Qed.

(** C3.  Whatever the worker has been through, the backlog it holds has
    at most [backlogLimit] events, and so it stays after every event
    received while the destination is away.  A drain handles the
    arrivals one by one: an event that fits is appended; one that does
    not makes the worker drop the 2000 oldest events at once - a fifth
    of the limit - and keep the 8001 most recent.  So arrivals that fit
    are all kept; in general what is kept is the backlog and the
    arrivals without some of the oldest - a whole number of batches -
    and never fewer than 8001 events once anything was dropped. *)
Theorem backlog_bounded_eviction (l : Logger) (rounds : list Round)
        (queue arrivals : list FuncCall) :
  let backlog := eventBacklog (fst (fst (manageConnectionAndSend l rounds queue))) in
  len backlog <= backlogLimit
  /\ (forall n, len (fst (drainLoop (firstn n arrivals) backlog 0)) <= backlogLimit)
  /\ fst (drainLoop arrivals backlog 0)
     = fold_left (fun b fn => fst (drainStep b fn)) arrivals backlog
  /\ (len (backlog ++ arrivals) <= backlogLimit ->
      fst (drainLoop arrivals backlog 0) = backlog ++ arrivals)
  /\ (exists k, fst (drainLoop arrivals backlog 0) = skipn k (backlog ++ arrivals)
                /\ (k <= List.length (backlog ++ arrivals))%nat
                /\ Nat.divide evictBatch k
                /\ (k = 0%nat \/ 8000 < len (fst (drainLoop arrivals backlog 0))))
  /\ (forall fn, len (backlog ++ [fn]) <= backlogLimit ->
                 drainStep backlog fn = (backlog ++ [fn], []))
  /\ (forall fn, backlogLimit < len (backlog ++ [fn]) ->
                 drainStep backlog fn
                 = (skipn evictBatch (backlog ++ [fn]), [MsgBacklogOverflow 2000 8001])
                 /\ len (skipn evictBatch (backlog ++ [fn])) = 8001)
  /\ Z.of_nat evictBatch * 100 = 20 * backlogLimit.
Proof.
  intros backlog.
  pose proof (worker_backlog_bounded l rounds queue) as Hb. fold backlog in Hb.
  split; [exact Hb|].
  split; [intros n; now apply drainLoop_bounded|].
  split; [apply drainLoop_fold|].
  split; [apply drainLoop_keeps_all|].
  split; [apply drainLoop_kept|].
  split; [intros fn; apply drainStep_keep|].
  split; [|reflexivity].
  intros fn Hfull.
  assert (Hlen : len (backlog ++ [fn]) = 10001).
  { rewrite len_app in *. unfold backlogLimit, len in *.
    cbn [List.length] in *. lia. }
  rewrite drainStep_evict by exact Hfull.
  rewrite len_skipn, Hlen. unfold evictBatch. split; reflexivity.
Qed.

(** *** The reconnect backoff *)

Lemma wrapInt64_small (n : Z) : 0 <= n < 2 ^ 63 -> wrapInt64 n = n.
Proof.
  intros H. unfold wrapInt64. rewrite Z.mod_small; lia.
Qed.

Lemma nextRetry_backoffDelay (k : nat) :
  nextRetry (backoffDelay k) = backoffDelay (S k).
Proof.
  unfold nextRetry, backoffDelay, maxRetry, retryBase, Second.
  rewrite Nat2Z.inj_succ, Z.pow_succ_r by lia.
  assert (Hpos : 0 < 2 ^ Z.of_nat k) by (apply Z.pow_pos_nonneg; lia).
  rewrite wrapInt64_small by lia.
  destruct (Z.min (2 ^ Z.of_nat k * 1000000000) (30 * 1000000000) * 2
            >? 30 * 1000000000) eqn:E.
  - apply Z.gtb_lt in E. lia.
  - rewrite Z.gtb_ltb in E. apply Z.ltb_ge in E. lia.
Qed.

Lemma backoffDelay_values :
  backoffDelay 0 = 1 * Second /\ backoffDelay 1 = 2 * Second
  /\ backoffDelay 2 = 4 * Second /\ backoffDelay 3 = 8 * Second
  /\ backoffDelay 4 = 16 * Second
  /\ forall k, (5 <= k)%nat -> backoffDelay k = 30 * Second.
Proof.
  repeat (split; [reflexivity|]).
  intros k Hk. unfold backoffDelay, maxRetry, retryBase, Second.
  assert (2 ^ 5 <= 2 ^ Z.of_nat k) by (apply Z.pow_le_mono_r; lia).
  lia.
Qed.

Lemma drainLoop_trace (arrivals : list FuncCall) :
  forall backlog count,
    let tr := snd (drainLoop arrivals backlog count) in
    dials tr = [] /\ waits tr = [] /\ writes tr = [] /\ received tr = arrivals.
Proof.
  induction arrivals as [|fn rest IH]; intros backlog count; simpl.
  - destruct (count >? 0); repeat split.
  - destruct (drainStep backlog fn) as [b logs].
    specialize (IH b (count + 1)).
    destruct (drainLoop rest b (count + 1)) as [final tr].
    cbn [snd] in *. destruct IH as (Hd & Hw & Hwr & Hr).
    repeat split; observe; congruence.
Qed.

Lemma flushFrom_quiet (fmt : Format) (c : Conn) (pending : list FuncCall) :
  forall i k sent0,
    let tr := snd (flushFrom fmt c i k sent0 pending) in
    dials tr = [] /\ waits tr = [] /\ received tr = [].
Proof.
  induction pending as [|fn rest IH]; intros i k sent0; simpl.
  - repeat split.
  - destruct (formatEvent fn fmt) as [[bytes|] logs].
    + destruct (writeOk c k).
      * specialize (IH (S i) (S k) (wrap64 (sent0 + 1))).
        destruct (flushFrom fmt c (S i) (S k) (wrap64 (sent0 + 1)) rest)
          as [[[out k'] sent'] tr].
        cbn [snd] in *. destruct IH as (Hd & Hw & Hr).
        repeat split; observe; assumption.
      * cbn [snd]. repeat split; observe; reflexivity.
    + specialize (IH (S i) k sent0).
      destruct (flushFrom fmt c (S i) k sent0 rest) as [[[out k'] sent'] tr].
      cbn [snd] in *. destruct IH as (Hd & Hw & Hr).
      repeat split; observe; assumption.
Qed.

Lemma sendingLoop_quiet (fmt : Format) (c : Conn) (queue : list FuncCall) :
  forall k sent0,
    let tr := snd (sendingLoop fmt c k sent0 queue) in
    dials tr = [] /\ waits tr = [].
Proof.
  induction queue as [|fn rest IH]; intros k sent0; simpl.
  - split; reflexivity.
  - destruct (formatEvent fn fmt) as [[bytes|] logs].
    + destruct (writeOk c k).
      * specialize (IH (S k) (wrap64 (sent0 + 1))).
        destruct (sendingLoop fmt c (S k) (wrap64 (sent0 + 1)) rest)
          as [[[out sent'] q'] tr].
        cbn [snd] in *. destruct IH as (Hd & Hw).
        destruct (wrap64 (sent0 + 1) mod 1000 =? 0);
          split; observe; assumption.
      * cbn [snd]. split; observe; reflexivity.
    + specialize (IH k sent0).
      destruct (sendingLoop fmt c k sent0 rest) as [[[out sent'] q'] tr].
      cbn [snd] in *. destruct IH as (Hd & Hw).
      split; observe; assumption.
Qed.

Lemma established_trace (network addr : string) (c : Conn) (w : Worker) :
  let tr := established network addr c w in
  dials tr = [(dialTimeout, true)] /\ waits tr = []
  /\ received tr = [] /\ writes tr = [].
Proof.
  unfold established.
  destruct (String.eqb network "tcp"), (keepAliveOk c), (keepAlivePeriodOk c);
    repeat split.
Qed.

Lemma iteration_backoff (fmt : Format) (network addr : string) (r : Round)
      (w : Worker) (queue : list FuncCall) :
  let res := iteration fmt network addr r w queue in
  let tr := snd (fst res) in
  dials tr = [(dialTimeout, roundOk r)]
  /\ waits tr = (if roundOk r then [] else [currentRetry w])
  /\ currentRetry (fst (fst (fst res)))
     = (if roundOk r then retryBase else nextRetry (currentRetry w)).
Proof.
  unfold iteration. destruct r as [ready|c]; cbn [roundOk].
  - pose proof (drainLoop_trace (firstn ready queue) (eventBacklog w) 0) as Ht.
    destruct (drainLoop (firstn ready queue) (eventBacklog w) 0) as [b tr].
    cbn [snd fst] in *. destruct Ht as (Hd & Hw & _).
    repeat split; observe; congruence.
  - pose proof (flushFrom_quiet fmt c (eventBacklog w) 0 0 (sent w)) as Hf.
    destruct (flushFrom fmt c 0 0 (sent w) (eventBacklog w)) as [[[out k] sent1] ftr].
    cbn [snd] in Hf. destruct Hf as (Hfd & Hfw & _).
    destruct (established_trace network addr c w) as (Hed & Hew & _).
    destruct out as [|i].
    + pose proof (sendingLoop_quiet fmt c queue k sent1) as Hs.
      destruct (sendingLoop fmt c k sent1 queue) as [[[sout sent2] queue'] str].
      cbn [snd] in Hs. destruct Hs as (Hsd & Hsw).
      destruct sout; cbn [snd fst currentRetry];
        repeat split; observe; rewrite ?Hed, ?Hew, ?Hfd, ?Hfw, ?Hsd, ?Hsw;
        reflexivity.
    + cbn [snd fst currentRetry].
      repeat split; observe; rewrite ?Hed, ?Hew, ?Hfd, ?Hfw; reflexivity.
Qed.

Lemma run_backoff (fmt : Format) (network addr : string) (rounds : list Round) :
  forall (w : Worker) (queue : list FuncCall) (k : nat),
    currentRetry w = backoffDelay k ->
    let res := run fmt network addr rounds w queue in
    let outcomes := map snd (dials (snd res)) in
    waits (snd res) = backoffSchedule k outcomes
    /\ currentRetry (fst (fst res)) = backoffDelay (failedSince k outcomes)
    /\ Forall (fun d => fst d = dialTimeout) (dials (snd res)).
Proof.
  induction rounds as [|r rest IH]; intros w queue k Hk; simpl.
  - repeat split; [exact Hk | constructor].
  - destruct (iteration_backoff fmt network addr r w queue) as (Hd & Hw & Hc).
    destruct (iteration fmt network addr r w queue) as [[[w' queue'] tr] again].
    cbn [fst snd] in Hd, Hw, Hc.
    assert (Hk' : currentRetry w' = backoffDelay (if roundOk r then 0 else S k)).
    { rewrite Hc. destruct (roundOk r); [reflexivity|].
      rewrite Hk. apply nextRetry_backoffDelay. }
    destruct again.
    + specialize (IH w' queue' _ Hk').
      destruct (run fmt network addr rest w' queue') as [[w'' queue''] tr'].
      cbn [fst snd] in *. destruct IH as (IHw & IHc & IHd).
      observe. rewrite Hd, Hw, map_app, IHw. cbn [map snd app].
      destruct (roundOk r); cbn [backoffSchedule failedSince app];
        (split; [congruence | split; [exact IHc | constructor; [reflexivity | exact IHd]]]).
    + cbn [fst snd]. rewrite Hd, Hw. cbn [map snd].
      destruct (roundOk r); cbn [backoffSchedule failedSince];
        (split; [congruence | split; [exact Hk' | repeat constructor]]).
Qed.

(** Every sequence of dial outcomes is the one of some run: failed dials
    need nothing, and a connection on which no write succeeds sends the
    worker back to dialing as soon as it has an event to write. *)
Lemma every_dial_sequence_occurs (network addr : string) (outcomes : list bool) :
  forall (w : Worker) (queue : list FuncCall),
    (List.length outcomes <= List.length queue)%nat ->
    map snd
      (dials (snd (run FormatText network addr
                     (map (fun ok : bool =>
                             if ok then DialOk (failingAfter 0) else DialFail 0)
                          outcomes)
                     w queue)))
    = outcomes.
Proof.
  induction outcomes as [|ok rest IH]; intros w queue Hlen; [reflexivity|].
  cbn [map run List.length] in *.
  set (r := if ok then DialOk (failingAfter 0) else DialFail 0).
  assert (Hr : roundOk r = ok) by (subst r; now destruct ok).
  destruct (iteration_backoff FormatText network addr r w queue) as (Hd & _ & _).
  assert (Hnext : snd (iteration FormatText network addr r w queue) = true
                  /\ (List.length rest
                      <= List.length
                           (snd (fst (fst (iteration FormatText network addr r w queue)))))%nat).
  { subst r. destruct ok; unfold iteration.
    - destruct (eventBacklog w) as [|fn backlog].
      + destruct queue as [|fn queue]; [cbn in Hlen; lia|].
        cbn in *. split; [reflexivity | lia].
      + cbn in *. split; [reflexivity | lia].
    - destruct (drainLoop (firstn 0 queue) (eventBacklog w) 0) as [b tr].
      cbn [fst snd skipn]. split; [reflexivity | lia]. }
  destruct (iteration FormatText network addr r w queue) as [[[w' queue'] tr] again].
  cbn [fst snd] in Hd, Hnext. destruct Hnext as (-> & Hlen').
  specialize (IH w' queue' Hlen').
  destruct (run FormatText network addr _ w' queue') as [[w'' queue''] tr'].
  cbn [fst snd] in *. unfold dials in *. rewrite flat_map_app, map_app, Hd, IH, Hr.
  reflexivity.
Qed.

(** The sending loop waits only on a queue it has emptied. *)
Lemma sendingLoop_waiting (fmt : Format) (c : Conn) (queue : list FuncCall) :
  forall (k : nat) (sent : Z),
    fst (fst (fst (sendingLoop fmt c k sent queue))) = SendWaiting ->
    snd (fst (sendingLoop fmt c k sent queue)) = [].
Proof.
  induction queue as [|fn rest IH]; intros k sent; cbn [sendingLoop]; [reflexivity|].
  destruct (formatEvent fn fmt) as [[bytes|] logs].
  - destruct (writeOk c k).
    + specialize (IH (S k) (wrap64 (sent + 1))).
      destruct (sendingLoop fmt c (S k) (wrap64 (sent + 1)) rest) as [[[o s'] q] t].
      cbn [fst snd] in *. exact IH.
    + cbn [fst snd]. discriminate.
  - specialize (IH k sent).
    destruct (sendingLoop fmt c k sent rest) as [[[o s'] q] t].
    cbn [fst snd] in *. exact IH.
Qed.

(** The loop turns again after every round but one: a connection on
    which the worker has written all there was and now waits on an empty
    queue. *)
Lemma iteration_waits (fmt : Format) (network addr : string) (r : Round)
      (w : Worker) (queue : list FuncCall) :
  snd (iteration fmt network addr r w queue) = false ->
  (exists c, r = DialOk c)
  /\ snd (fst (fst (iteration fmt network addr r w queue))) = []
  /\ eventBacklog (fst (fst (fst (iteration fmt network addr r w queue)))) = [].
Proof.
  unfold iteration. destruct r as [ready|c].
  - destruct (drainLoop (firstn ready queue) (eventBacklog w) 0) as [b tr].
    cbn [snd]. discriminate.
  - destruct (flushFrom fmt c 0 0 (sent w) (eventBacklog w)) as [[[out k] sent1] ftr].
    destruct out as [|i]; [|cbn [snd]; discriminate].
    pose proof (sendingLoop_waiting fmt c queue k sent1) as Hs.
    destruct (sendingLoop fmt c k sent1 queue) as [[[sout sent2] queue'] str].
    cbn [fst snd] in Hs.
    destruct sout as [fn|]; cbn [fst snd eventBacklog]; [discriminate|].
    intros _. split; [eauto|]. split; [exact (Hs eq_refl) | reflexivity].
Qed.

(** The dials of a run are those of the rounds, one for one and in
    order: of all the rounds, or of the rounds up to a connection on
    which the worker comes to wait. *)
Lemma run_dials (fmt : Format) (network addr : string) (rounds : list Round) :
  forall (w : Worker) (queue : list FuncCall),
  exists n,
    (n <= List.length rounds)%nat
    /\ dials (snd (run fmt network addr rounds w queue))
       = map (fun r => (dialTimeout, roundOk r)) (firstn n rounds)
    /\ (rounds <> [] -> (1 <= n)%nat)
    /\ (n = List.length rounds
        \/ exists c, nth_error rounds (n - 1) = Some (DialOk c)
                     /\ snd (fst (run fmt network addr rounds w queue)) = []
                     /\ eventBacklog (fst (fst (run fmt network addr rounds w queue))) = []).
Proof.
  induction rounds as [|r rest IH]; intros w queue.
  - exists 0%nat. cbn. repeat split; [lia | congruence | now left].
  - cbn [run].
    destruct (iteration_backoff fmt network addr r w queue) as (Hd & _ & _).
    pose proof (iteration_waits fmt network addr r w queue) as Hwait.
    destruct (iteration fmt network addr r w queue) as [[[w' queue'] tr] again].
    cbn [fst snd] in Hd, Hwait. destruct again.
    + destruct (IH w' queue') as (n & Hn & Hdn & Hpos & Hend).
      destruct (run fmt network addr rest w' queue') as [[w'' queue''] tr'].
      cbn [fst snd] in *. exists (S n).
      split; [cbn [List.length]; lia|].
      split; [unfold dials in *; rewrite flat_map_app, Hd, Hdn; reflexivity|].
      split; [lia|].
      destruct Hend as [-> | (c & Hc & Hq & Hb)]; [now left|].
      right. exists c.
      assert (Hn1 : (1 <= n)%nat).
      { apply Hpos. intros ->. destruct (n - 1)%nat; discriminate Hc. }
      replace (S n - 1)%nat with (S (n - 1)) by lia.
      cbn [nth_error]. now repeat split.
    + destruct (Hwait eq_refl) as ((c & ->) & Hq & Hb). cbn [fst snd].
      exists 1%nat. split; [cbn [List.length]; lia|].
      split; [exact Hd|]. split; [lia|].
      right. exists c. cbn. now repeat split.
Qed.

(** C4.  In every run of the socket worker there is one dial for each
    round the environment describes, in order and with its outcome -
    for all the rounds, or up to a connection on which the worker comes
    to wait - and each dial is given five seconds.  The wait after a
    failed dial is the one the specification gives for the number of
    consecutive failures before it: one second at the start and after
    any successful dial, twice the previous wait after each further
    failure, and never more than thirty seconds.  With no destination
    set the worker does not dial at all. *)
Theorem reconnect_backoff (l : Logger) (rounds : list Round)
        (queue : list FuncCall) :
  let res := manageConnectionAndSend l rounds queue in
  let outcomes := map snd (dials (snd res)) in
  waits (snd res) = backoffSchedule 0 outcomes
  /\ currentRetry (fst (fst res)) = backoffDelay (failedSince 0 outcomes)
  /\ Forall (fun d => fst d = 5 * Second) (dials (snd res))
  /\ backoffDelay 0 = 1 * Second
  /\ (forall k, backoffDelay (S k) = Z.min (2 * backoffDelay k) (30 * Second))
  /\ (forall k, backoffDelay k <= 30 * Second)
  /\ (forall k, (5 <= k)%nat -> backoffDelay k = 30 * Second)
  /\ (GO_ANNOTATE_LOG_TARGET = ""%string ->
      dials (snd res) = [] /\ received (snd res) = queue)
  /\ (GO_ANNOTATE_LOG_TARGET <> ""%string ->
      exists n,
        (n <= List.length rounds)%nat
        /\ dials (snd res)
           = map (fun r => (5 * Second, roundOk r)) (firstn n rounds)
        /\ (rounds <> [] -> (1 <= n)%nat)
        /\ (n = List.length rounds
            \/ exists c, nth_error rounds (n - 1) = Some (DialOk c)
                         /\ snd (fst res) = []
                         /\ eventBacklog (fst (fst res)) = []))
  /\ (GO_ANNOTATE_LOG_TARGET <> ""%string ->
      (forall r, In r rounds -> roundOk r = false) ->
      outcomes = map roundOk rounds
      /\ waits (snd res)
         = map backoffDelay (seq 0 (List.length rounds))).
Proof.
  cbv zeta.
  assert (Hrun : waits (snd (manageConnectionAndSend l rounds queue))
                 = backoffSchedule 0
                     (map snd (dials (snd (manageConnectionAndSend l rounds queue))))
                 /\ currentRetry (fst (fst (manageConnectionAndSend l rounds queue)))
                    = backoffDelay
                        (failedSince 0
                           (map snd (dials (snd (manageConnectionAndSend l rounds queue)))))
                 /\ Forall (fun d => fst d = 5 * Second)
                      (dials (snd (manageConnectionAndSend l rounds queue)))).
  { unfold manageConnectionAndSend.
    destruct (String.eqb GO_ANNOTATE_LOG_TARGET "").
    - cbn [fst snd].
      assert (Hq : forall q m, dials (ActLog m :: map ActRecv q) = []
                               /\ waits (ActLog m :: map ActRecv q) = []).
      { intros q m. unfold dials, waits. cbn [flat_map app].
        induction q as [|x q [IH1 IH2]]; split; cbn; auto. }
      destruct (Hq queue MsgTargetNotSet) as [-> ->].
      split; [reflexivity | split; [reflexivity | constructor]].
    - apply (run_backoff _ _ _ rounds _ queue 0%nat). reflexivity. }
  assert (Htied : GO_ANNOTATE_LOG_TARGET <> ""%string ->
                  exists n,
                    (n <= List.length rounds)%nat
                    /\ dials (snd (manageConnectionAndSend l rounds queue))
                       = map (fun r => (5 * Second, roundOk r)) (firstn n rounds)
                    /\ (rounds <> [] -> (1 <= n)%nat)
                    /\ (n = List.length rounds
                        \/ exists c,
                            nth_error rounds (n - 1) = Some (DialOk c)
                            /\ snd (fst (manageConnectionAndSend l rounds queue)) = []
                            /\ eventBacklog
                                 (fst (fst (manageConnectionAndSend l rounds queue))) = [])).
  { intros Hset. unfold manageConnectionAndSend.
    destruct (String.eqb_spec GO_ANNOTATE_LOG_TARGET "") as [E|_]; [contradiction|].
    apply run_dials. }
  destruct Hrun as (H1 & H2 & H3).
  split; [exact H1|]. split; [exact H2|]. split; [exact H3|].
  split; [reflexivity|].
  split.
  { intros k. unfold backoffDelay, maxRetry, retryBase, Second.
    rewrite Nat2Z.inj_succ, Z.pow_succ_r by lia. lia. }
  split.
  { intros k. unfold backoffDelay, maxRetry. lia. }
  split; [apply backoffDelay_values|].
  split.
  { intros Hunset. unfold manageConnectionAndSend. rewrite Hunset. cbn [String.eqb fst snd].
    assert (Hq : forall q m, dials (ActLog m :: map ActRecv q) = []
                             /\ received (ActLog m :: map ActRecv q) = q).
    { intros q m. unfold dials, received. cbn [flat_map app].
      induction q as [|x q [IH1 IH2]]; split; cbn; auto. now rewrite IH2. }
    apply Hq. }
  split; [exact Htied|].
  intros Hset Hfail.
  destruct (Htied Hset) as (n & Hn & Hd & _ & Hend).
  assert (Hall : n = List.length rounds).
  { destruct Hend as [E | (c & Hc & _)]; [exact E|].
    apply nth_error_In, Hfail in Hc. discriminate Hc. }
  subst n. rewrite firstn_all in Hd.
  assert (Hout : map snd (dials (snd (manageConnectionAndSend l rounds queue)))
                 = map roundOk rounds).
  { rewrite Hd, map_map. reflexivity. }
  split; [exact Hout|].
  rewrite H1, Hout. clear - Hfail.
  assert (Hgen : forall k, backoffSchedule k (map roundOk rounds)
                           = map backoffDelay (seq k (List.length rounds))).
  { induction rounds as [|r rest IH]; intros k; [reflexivity|].
    cbn [map List.length seq backoffSchedule].
    rewrite (Hfail r (or_introl eq_refl)).
    rewrite IH by (intros r' Hr'; apply Hfail; now right). reflexivity. }
  apply Hgen.
Qed.

(** *** The replay of the backlog *)

Lemma encodings_app (fmt : Format) (a b : list FuncCall) :
  encodings fmt (a ++ b) = encodings fmt a ++ encodings fmt b.
Proof. apply flat_map_app. Qed.

Lemma encodings_cons (fmt : Format) (fn : FuncCall) (rest : list FuncCall) :
  encodings fmt (fn :: rest)
  = match encoding fmt fn with Some b => [b] | None => [] end
      ++ encodings fmt rest.
Proof. reflexivity. Qed.

Lemma encoding_eq (fmt : Format) (fn : FuncCall) (o : option (list byte))
      (logs : list LogMsg) :
  formatEvent fn fmt = (o, logs) -> encoding fmt fn = o.
Proof. unfold encoding. now intros ->. Qed.

Lemma flushFrom_spec (fmt : Format) (c : Conn) (pending : list FuncCall) :
  forall i k sent0,
    map snd (writes (snd (flushFrom fmt c i k sent0 pending)))
    = map (writeOk c)
        (seq k (List.length (writes (snd (flushFrom fmt c i k sent0 pending)))))
    /\ match fst (fst (fst (flushFrom fmt c i k sent0 pending))) with
       | FlushDone =>
           writes (snd (flushFrom fmt c i k sent0 pending))
           = map okWrite (encodings fmt pending)
           /\ snd (fst (fst (flushFrom fmt c i k sent0 pending)))
              = (k + List.length (writes (snd (flushFrom fmt c i k sent0 pending))))%nat
       | FlushFailed j =>
           exists n fn bytes,
             j = (i + n)%nat
             /\ nth_error pending n = Some fn
             /\ encoding fmt fn = Some bytes
             /\ writes (snd (flushFrom fmt c i k sent0 pending))
                = map okWrite (encodings fmt (firstn n pending)) ++ [(bytes, false)]
       end.
Proof.
  induction pending as [|fn rest IH]; intros i k sent0; cbn [flushFrom].
  - split; [reflexivity|]. split; [reflexivity | cbn; lia].
  - rewrite encodings_cons.
    destruct (formatEvent fn fmt) as [[bytes|] logs] eqn:Hfn;
      rewrite (encoding_eq _ _ _ _ Hfn).
    + destruct (writeOk c k) eqn:Hok.
      * specialize (IH (S i) (S k) (wrap64 (sent0 + 1))).
        destruct (flushFrom fmt c (S i) (S k) (wrap64 (sent0 + 1)) rest)
          as [[[out k'] sent'] tr].
        cbn [fst snd] in *. destruct IH as (IHo & IHs).
        observe. cbn [map List.length seq snd].
        split; [now rewrite Hok, IHo|].
        destruct out as [|j].
        -- destruct IHs as (IHw & IHk). rewrite IHw. split; [reflexivity|].
           rewrite IHk, IHw. cbn [List.length]. lia.
        -- destruct IHs as (n & fn' & bytes' & Hj & Hn & He & Hw).
           exists (S n), fn', bytes'. cbn [nth_error firstn].
           rewrite encodings_cons, (encoding_eq _ _ _ _ Hfn), Hw.
           repeat split; [lia | exact Hn | exact He].
      * cbn [fst snd]. observe. cbn [map List.length seq snd].
        split; [now rewrite Hok|].
        exists 0%nat, fn, bytes. cbn [nth_error firstn].
        rewrite (encoding_eq _ _ _ _ Hfn).
        repeat split. lia.
    + specialize (IH (S i) k sent0).
      destruct (flushFrom fmt c (S i) k sent0 rest) as [[[out k'] sent'] tr].
      cbn [fst snd] in *. destruct IH as (IHo & IHs).
      observe. split; [exact IHo|].
      destruct out as [|j].
      -- exact IHs.
      -- destruct IHs as (n & fn' & bytes' & Hj & Hn & He & Hw).
         exists (S n), fn', bytes'. cbn [nth_error firstn].
         rewrite encodings_cons, (encoding_eq _ _ _ _ Hfn), Hw.
         repeat split; [lia | exact Hn | exact He].
Qed.

Lemma sendingLoop_spec (fmt : Format) (c : Conn) (queue : list FuncCall) :
  forall k sent0,
    map snd (writes (snd (sendingLoop fmt c k sent0 queue)))
    = map (writeOk c)
        (seq k (List.length (writes (snd (sendingLoop fmt c k sent0 queue)))))
    /\ received (snd (sendingLoop fmt c k sent0 queue))
         ++ snd (fst (sendingLoop fmt c k sent0 queue)) = queue
    /\ match fst (fst (fst (sendingLoop fmt c k sent0 queue))) with
       | SendWaiting => snd (fst (sendingLoop fmt c k sent0 queue)) = []
       | SendFailed fn =>
           exists earlier,
             received (snd (sendingLoop fmt c k sent0 queue)) = earlier ++ [fn]
       end.
Proof.
  induction queue as [|fn rest IH]; intros k sent0; cbn [sendingLoop].
  - repeat split.
  - destruct (formatEvent fn fmt) as [[bytes|] logs] eqn:Hfn.
    + destruct (writeOk c k) eqn:Hok.
      * specialize (IH (S k) (wrap64 (sent0 + 1))).
        destruct (sendingLoop fmt c (S k) (wrap64 (sent0 + 1)) rest)
          as [[[out sent'] q'] tr].
        cbn [fst snd] in *. destruct IH as (IHo & IHr & IHs).
        destruct (wrap64 (sent0 + 1) mod 1000 =? 0);
          observe; cbn [map List.length seq snd];
          (split; [now rewrite Hok, IHo|]); (split; [now rewrite IHr|]);
          (destruct out as [fn'|]; [|exact IHs]);
          destruct IHs as [earlier He]; exists (fn :: earlier); now rewrite He.
      * cbn [fst snd]. observe. cbn [map List.length seq snd].
        split; [now rewrite Hok|]. split; [reflexivity|].
        exists []. reflexivity.
    + specialize (IH k sent0).
      destruct (sendingLoop fmt c k sent0 rest) as [[[out sent'] q'] tr].
      cbn [fst snd] in *. destruct IH as (IHo & IHr & IHs).
      observe. split; [exact IHo|]. split; [now rewrite IHr|].
      destruct out as [fn'|]; [|exact IHs].
      destruct IHs as [earlier He]. exists (fn :: earlier). now rewrite He.
Qed.

Lemma writes_outcomes_app (c : Conn) (a b : list (list byte * bool)) :
  map snd a = map (writeOk c) (seq 0 (List.length a)) ->
  map snd b = map (writeOk c) (seq (0 + List.length a) (List.length b)) ->
  map snd (a ++ b) = map (writeOk c) (seq 0 (List.length (a ++ b))).
Proof.
  intros Ha Hb. rewrite length_app, seq_app, !map_app. now rewrite Ha, Hb.
Qed.

(** C1.  After a successful dial the worker writes the backlog before it
    takes anything from the queue.  Either every event of the backlog
    that has a message is written, in the order of the backlog, and only
    then does the worker receive from the queue; or the write of the
    event at some position [i] of the backlog fails, and then the events
    before [i] have been written in order, nothing has been received
    from the queue, and the backlog kept for the next connection is the
    old one from position [i] on, the failed event first.  The outcome
    of each write is the connection's. *)
Theorem backlog_replayed_first (fmt : Format) (network addr : string)
        (c : Conn) (w : Worker) (queue : list FuncCall) :
  let res := iteration fmt network addr (DialOk c) w queue in
  let w' := fst (fst (fst res)) in
  let queue' := snd (fst (fst res)) in
  let tr := snd (fst res) in
  let backlog := eventBacklog w in
  map snd (writes tr) = map (writeOk c) (seq 0 (List.length (writes tr)))
  /\ ((exists pre post,
          tr = pre ++ post
          /\ received pre = []
          /\ writes pre = map okWrite (encodings fmt backlog)
          /\ received post ++ queue' = queue
          /\ (eventBacklog w' = []
              \/ exists earlier fn,
                  received post = earlier ++ [fn] /\ eventBacklog w' = [fn]))
      \/ (exists i fn bytes,
             nth_error backlog i = Some fn
             /\ encoding fmt fn = Some bytes
             /\ writes tr
                = map okWrite (encodings fmt (firstn i backlog)) ++ [(bytes, false)]
             /\ eventBacklog w' = skipn i backlog
             /\ received tr = []
             /\ queue' = queue
             /\ snd res = true)).
Proof.
  cbv zeta. unfold iteration.
  pose proof (flushFrom_spec fmt c (eventBacklog w) 0 0 (sent w)) as Hf.
  pose proof (flushFrom_quiet fmt c (eventBacklog w) 0 0 (sent w)) as Hq.
  destruct (established_trace network addr c w) as (_ & _ & Her & Hew).
  destruct (flushFrom fmt c 0 0 (sent w) (eventBacklog w)) as [[[out k] sent1] ftr].
  cbn [fst snd] in Hf, Hq. destruct Hf as (Hfo & Hfs). destruct Hq as (_ & _ & Hfr).
  destruct out as [|i].
  - destruct Hfs as (Hfw & Hk).
    pose proof (sendingLoop_spec fmt c queue k sent1) as Hs.
    destruct (sendingLoop fmt c k sent1 queue) as [[[sout sent2] queue'] str].
    cbn [fst snd] in Hs. destruct Hs as (Hso & Hsr & Hss). subst k.
    assert (Hall : forall tail,
               writes tail = [] ->
               map snd (writes ((established network addr c w ++ ftr
                                   ++ [ActLog (MsgBacklogSent addr)] ++ str) ++ tail))
               = map (writeOk c)
                   (seq 0 (List.length
                             (writes ((established network addr c w ++ ftr
                                         ++ [ActLog (MsgBacklogSent addr)] ++ str)
                                        ++ tail))))).
    { intros tail Ht.
      assert (Hw : writes ((established network addr c w ++ ftr
                              ++ [ActLog (MsgBacklogSent addr)] ++ str) ++ tail)
                   = writes ftr ++ writes str).
      { unfold writes in *. rewrite !flat_map_app, Hew, Ht. cbn [flat_map app].
        now rewrite app_nil_r. }
      rewrite Hw. now apply writes_outcomes_app. }
    assert (Hpre : received (established network addr c w ++ ftr
                               ++ [ActLog (MsgBacklogSent addr)]) = []
                   /\ writes (established network addr c w ++ ftr
                                ++ [ActLog (MsgBacklogSent addr)])
                      = map okWrite (encodings fmt (eventBacklog w))).
    { unfold received, writes in *. rewrite !flat_map_app, Her, Hew, Hfr, Hfw.
      cbn [flat_map app]. now rewrite app_nil_r. }
    destruct Hpre as (Hpr & Hpw).
    destruct sout as [fn|]; cbn [fst snd eventBacklog].
    + split; [apply Hall; reflexivity|]. left.
      exists (established network addr c w ++ ftr ++ [ActLog (MsgBacklogSent addr)]),
        (str ++ [ActClose]).
      split; [now rewrite <- !app_assoc|].
      split; [exact Hpr|]. split; [exact Hpw|].
      assert (Hrc : received (str ++ [ActClose]) = received str).
      { unfold received. rewrite flat_map_app. cbn [flat_map app]. apply app_nil_r. }
      rewrite Hrc. split; [exact Hsr|]. right.
      destruct Hss as [earlier He]. exists earlier, fn. split; [exact He | reflexivity].
    + split; [rewrite <- (app_nil_r (_ ++ _ ++ _ ++ str)); apply Hall; reflexivity|].
      left.
      exists (established network addr c w ++ ftr ++ [ActLog (MsgBacklogSent addr)]), str.
      split; [now rewrite <- !app_assoc|].
      split; [exact Hpr|]. split; [exact Hpw|]. split; [exact Hsr|]. now left.
  - destruct Hfs as (n & fn & bytes & Hi & Hn & He & Hw). cbn [Nat.add] in Hi. subst i.
    cbn [fst snd eventBacklog].
    assert (Hwr : writes (established network addr c w ++ ftr ++ [ActClose]) = writes ftr).
    { unfold writes in *. rewrite !flat_map_app, Hew. cbn [flat_map app].
      now rewrite app_nil_r. }
    rewrite Hwr. split; [exact Hfo|]. right.
    exists n, fn, bytes. repeat split; try assumption.
    unfold received in *. rewrite !flat_map_app, Her, Hfr. reflexivity.
Qed.

(** With a format that gives every event a message, nothing of the
    backlog is skipped. *)
Lemma encodings_text (events : list FuncCall) :
  encodings FormatText events
  = map (fun fn => list_byte_of_string (FuncCall_String fn) ++ [x0a]) events.
Proof.
  induction events as [|fn rest IH]; [reflexivity|].
  rewrite encodings_cons, IH. reflexivity.
Qed.


(** ** Further properties *)

(** *** The queue under a sequence of calls *)

Lemma Log_room (l : Logger) (fn : FuncCall) :
  (room (eventBuffer l) = 0%nat -> Log l fn = (l, [dropped fn]))
  /\ (forall r, room (eventBuffer l) = S r ->
                Log l fn
                = (mkLogger (counter l) (format_ l)
                     (mkChan (buf (eventBuffer l) ++ [fn]) (cap (eventBuffer l)))
                     (sentCount l), [])
                /\ room (mkChan (buf (eventBuffer l) ++ [fn]) (cap (eventBuffer l))) = r).
Proof.
  unfold room, Log, dropped. split.
  - intros Hr.
    destruct (len (buf (eventBuffer l)) <? cap (eventBuffer l)) eqn:E.
    + apply Z.ltb_lt in E. lia.
    + destruct (negb (String.eqb GO_ANNOTATE_LOG_TARGET "")
                && isSocketAddress GO_ANNOTATE_LOG_TARGET); reflexivity.
  - intros r Hr.
    destruct (len (buf (eventBuffer l)) <? cap (eventBuffer l)) eqn:E.
    + split; [reflexivity|]. cbn [buf cap]. rewrite len_app.
      unfold len in *. cbn [List.length]. lia.
    + apply Z.ltb_ge in E. lia.
Qed.

(** [logAll] in closed form. *)
Lemma logAll_split (events : list FuncCall) :
  forall l : Logger,
    logAll l events
    = (mkLogger (counter l) (format_ l)
         (mkChan (buf (eventBuffer l) ++ firstn (room (eventBuffer l)) events)
                 (cap (eventBuffer l)))
         (sentCount l),
       map dropped (skipn (room (eventBuffer l)) events)).
Proof.
  induction events as [|fn rest IH]; intros l.
  - cbn [logAll]. rewrite firstn_nil, skipn_nil, app_nil_r.
    destruct l as [c f [b k] s]. reflexivity.
  - cbn [logAll]. destruct (Log_room l fn) as (Hfull & Hfree).
    destruct (room (eventBuffer l)) as [|r] eqn:Hr.
    + rewrite (Hfull eq_refl), IH, Hr. cbn [firstn skipn map app]. reflexivity.
    + destruct (Hfree r eq_refl) as (-> & Hr').
      rewrite IH. cbn [eventBuffer counter format_ sentCount buf cap].
      rewrite Hr'. cbn [firstn skipn app]. now rewrite <- app_assoc.
Qed.

(** X1.  Calling [Log] for a sequence of events, with nobody taking from
    the queue, appends the first events up to the free places of the
    queue, in order, and drops every later one, printing one diagnostic
    for each dropped event, in order; nothing else of the logger
    changes. *)
Theorem logAll_fills_then_drops (events : list FuncCall) :
  forall l : Logger,
    logAll l events
    = (mkLogger (counter l) (format_ l)
         (mkChan (buf (eventBuffer l) ++ firstn (room (eventBuffer l)) events)
                 (cap (eventBuffer l)))
         (sentCount l),
       map dropped (skipn (room (eventBuffer l)) events)).
Proof. exact (logAll_split events). Qed.

(** X2.  A logger made by [NewLogger] holds the first 10000 events logged
    to it - 100000 when the destination is a socket address - and drops
    the others. *)
Theorem NewLogger_capacity (fmt : Format) (events : list FuncCall) :
  let limit :=
    if negb (String.eqb GO_ANNOTATE_LOG_TARGET "")
       && isSocketAddress GO_ANNOTATE_LOG_TARGET
    then 100000 else 10000 in
  buf (eventBuffer (fst (logAll (NewLogger fmt) events)))
  = firstn (Z.to_nat limit) events
  /\ snd (logAll (NewLogger fmt) events)
     = map dropped (skipn (Z.to_nat limit) events)
  /\ (limit = 100000 <-> exists network,
         sinkOf GO_ANNOTATE_LOG_TARGET = SinkSocket network).
Proof.
  cbv zeta. rewrite logAll_split. unfold NewLogger, room, sinkOf.
  cbn [eventBuffer buf cap fst snd app len List.length Z.of_nat].
  rewrite Z.sub_0_r.
  split; [reflexivity|]. split; [reflexivity|].
  destruct (String.eqb GO_ANNOTATE_LOG_TARGET ""); cbn [negb andb].
  - split; [discriminate | intros [n Hn]; discriminate].
  - destruct (isSocketAddress GO_ANNOTATE_LOG_TARGET).
    + split; [eauto | reflexivity].
    + split; [discriminate | intros [n Hn]; discriminate].
Qed.

(** *** The id counter *)

(** X3.  While the counter does not wrap, [n] calls of [ID] return the
    [n] numbers that follow the counter, in order, and leave the counter
    at the last of them; nothing else of the logger changes. *)
Theorem takeIDs_sequential (n : nat) :
  forall l : Logger,
    0 <= counter l ->
    counter l + Z.of_nat n < 2 ^ 64 ->
    takeIDs n l
    = (mkLogger (counter l + Z.of_nat n) (format_ l) (eventBuffer l) (sentCount l),
       map (fun k => counter l + Z.of_nat k) (seq 1 n)).
Proof.
  induction n as [|n IH]; intros l Hlo Hhi.
  - cbn [takeIDs seq map]. rewrite Z.add_0_r. destruct l; reflexivity.
  - cbn [takeIDs]. unfold ID.
    assert (Hw : wrap64 (counter l + 1) = counter l + 1).
    { unfold wrap64. apply Z.mod_small. lia. }
    rewrite Hw, IH; cbn [counter format_ eventBuffer sentCount]; try lia.
    assert (Hids : map (fun k => counter l + 1 + Z.of_nat k) (seq 1 n)
                   = map (fun k => counter l + Z.of_nat k) (seq 2 n)).
    { rewrite <- (seq_shift n 1), map_map. apply map_ext. intros k. lia. }
    rewrite Hids. cbn [seq map].
    replace (counter l + 1 + Z.of_nat n) with (counter l + Z.of_nat (S n)) by lia.
    replace (counter l + Z.of_nat 1) with (counter l + 1) by lia.
    reflexivity.
Qed.

(** *** Integers *)

Lemma to_int_proper (v : Z) : Z.to_int v <> Decimal.Pos Decimal.Nil
                              /\ Z.to_int v <> Decimal.Neg Decimal.Nil.
Proof.
  destruct v as [|p|p]; cbn; split; try discriminate;
    intros H; injection H; apply DecimalPos.Unsigned.to_uint_nonnil.
Qed.

(** X4.  The decimal form [format] gives to a signed integer reads back
    as that integer, so two integers of one type never share a formatted
    form; the same holds for an unsigned integer. *)
Theorem format_integer_roundtrip (v : Z) :
  option_map Z.of_int (NilZero.int_of_string (format (VInt64 v))) = Some v
  /\ format (VInt v) = format (VInt64 v)
  /\ format (VInt8 v) = format (VInt64 v)
  /\ format (VInt16 v) = format (VInt64 v)
  /\ format (VInt32 v) = format (VInt64 v)
  /\ (0 <= v ->
      option_map (fun d => Z.of_N (N.of_uint d))
        (NilZero.uint_of_string (format (VUint64 v))) = Some v).
Proof.
  split.
  { cbn [format]. unfold strconv.FormatInt.
    destruct (to_int_proper v) as [H1 H2].
    rewrite (NilZero.isi _ H1 H2). cbn [option_map].
    now rewrite DecimalZ.of_to. }
  do 4 (split; [reflexivity|]).
  intros Hv. cbn [format]. unfold strconv.FormatUint.
  rewrite NilZero.usu.
  - cbn [option_map]. rewrite DecimalN.Unsigned.of_to. f_equal. lia.
  - destruct (Z.to_N v); cbn; [discriminate|].
    apply DecimalPos.Unsigned.to_uint_nonnil.
Qed.


(** *** Byte sequences *)

Lemma concat_empty_cons (x : string) (l : list string) :
  String.concat "" (x :: l) = (x ++ String.concat "" l)%string.
Proof. destruct l; cbn [String.concat]; [now rewrite append_empty_r | reflexivity]. Qed.

Lemma hexString_cons (b : byte) (src : list byte) :
  hexString (b :: src) = (hex.encodeByte (byteZ b) ++ hexString src)%string.
Proof. unfold hexString. cbn [map]. apply concat_empty_cons. Qed.

Lemma AppendEncode_hexString (src : list byte) :
  forall dst, hex.AppendEncode dst src = (dst ++ hexString src)%string.
Proof.
  induction src as [|b src IH]; intros dst; cbn [hex.AppendEncode].
  - symmetry. apply append_empty_r.
  - now rewrite IH, hexString_cons, append_assoc.
Qed.

Lemma appendHex_hexString (dst : string) (src : list byte) :
  appendHex dst src = (dst ++ hexString src)%string.
Proof.
  unfold appendHex. destruct src as [|b src].
  - symmetry. apply append_empty_r.
  - unfold len. cbn [List.length]. 
    destruct (Z.of_nat (S (List.length src)) =? 0) eqn:E;
      [apply Z.eqb_eq in E; lia | apply AppendEncode_hexString].
Qed.

Lemma encodeByte_digits (b : byte) :
  match hex.encodeByte (byteZ b) with
  | String hi (String lo EmptyString) =>
      match unhexDigit hi, unhexDigit lo with
      | Some h, Some l => byteOfZ (16 * h + l) = b
      | _, _ => False
      end
  | _ => False
  end.
Proof. destruct b; vm_compute; reflexivity. Qed.

Lemma unhex_encodeByte (b : byte) (rest : string) :
  unhex (hex.encodeByte (byteZ b) ++ rest) = option_map (cons b) (unhex rest).
Proof.
  pose proof (encodeByte_digits b) as H.
  destruct (hex.encodeByte (byteZ b)) as [|hi [|lo [|x y]]]; try contradiction.
  cbn [append unhex].
  destruct (unhexDigit hi) as [h|]; [|contradiction].
  destruct (unhexDigit lo) as [l|]; [|contradiction].
  rewrite H. destruct (unhex rest); reflexivity.
Qed.

Lemma unhex_hexString (src : list byte) : unhex (hexString src) = Some src.
Proof.
  induction src as [|b src IH]; [reflexivity|].
  now rewrite hexString_cons, unhex_encodeByte, IH.
Qed.

Lemma length_append (a b : string) :
  String.length (a ++ b) = (String.length a + String.length b)%nat.
Proof. induction a; simpl; congruence. Qed.

Lemma hexString_length (src : list byte) :
  String.length (hexString src) = (2 * List.length src)%nat.
Proof.
  induction src as [|b src IH]; [reflexivity|].
  rewrite hexString_cons, length_append, IH. cbn [hex.encodeByte String.length List.length].
  lia.
Qed.

Lemma format_bytes_hexString (v : list byte) :
  format (VBytes v) = ("0x" ++ hexString v)%string.
Proof.
  cbn [format]. rewrite appendHex_hexString.
  destruct v; [reflexivity|]. unfold len. cbn [List.length].
  destruct (Z.of_nat (S (List.length v)) =? 0) eqn:E;
    [apply Z.eqb_eq in E; lia | reflexivity].
Qed.

(** X5.  A byte slice is formatted as [0x] followed by two lowercase
    hexadecimal digits per byte; reading the digits back gives the bytes,
    so two different slices never share a formatted form. *)
Theorem format_bytes_roundtrip (v : list byte) :
  format (VBytes v) = ("0x" ++ hexString v)%string
  /\ String.length (format (VBytes v)) = (2 + 2 * List.length v)%nat
  /\ unhex (hexString v) = Some v
  /\ (forall w, format (VBytes v) = format (VBytes w) -> v = w).
Proof.
  split; [apply format_bytes_hexString|].
  split.
  { rewrite format_bytes_hexString. cbn [append String.length].
    now rewrite hexString_length. }
  split; [apply unhex_hexString|].
  intros w H. rewrite !format_bytes_hexString in H. cbn [append] in H.
  injection H as H.
  pose proof (unhex_hexString v) as Hv. rewrite H, unhex_hexString in Hv.
  congruence.
Qed.

Lemma concat_bar_cons (x : string) (l : list string) :
  String.concat "|" (x :: l)
  = (x ++ String.concat "" (map (fun y => "|" ++ y) l))%string.
Proof.
  revert x. induction l as [|y l IH]; intros x.
  - cbn [String.concat map]. symmetry. apply append_empty_r.
  - change (String.concat "|" (x :: y :: l))
      with (x ++ "|" ++ String.concat "|" (y :: l))%string.
    rewrite IH. cbn [map]. rewrite concat_empty_cons. cbn [append]. reflexivity.
Qed.

Lemma appendSegments_later (v : list (list byte)) :
  forall dst i,
    0 < i ->
    appendSegments dst i v
    = (dst ++ String.concat "" (map (fun y => "|" ++ y) (map hexString v)))%string.
Proof.
  induction v as [|b v IH]; intros dst i Hi; cbn [appendSegments map].
  - symmetry. apply append_empty_r.
  - destruct (0 <? i) eqn:E; [|apply Z.ltb_ge in E; lia].
    rewrite IH by lia. rewrite appendHex_hexString, concat_empty_cons.
    rewrite !append_assoc. reflexivity.
Qed.

(** The digits of the slices, with a bar between them. *)
Lemma format_bytes_segments (v : list (list byte)) :
  format (VBytesList v) = ("0x" ++ String.concat "|" (map hexString v))%string.
Proof.
  cbn [format]. destruct v as [|b v]; [reflexivity|].
  unfold len. cbn [List.length].
  destruct (Z.of_nat (S (List.length v)) =? 0) eqn:E; [apply Z.eqb_eq in E; lia|].
  cbn [appendSegments map]. rewrite Z.ltb_irrefl.
  rewrite appendSegments_later by lia.
  rewrite appendHex_hexString, concat_bar_cons, !append_assoc. reflexivity.
Qed.

(** X6.  A slice of byte slices is formatted as [0x] followed by the
    digits of each slice, with a bar between one slice and the next; an
    empty slice of slices gives [0x] alone. *)
Theorem format_bytes_list (v : list (list byte)) :
  format (VBytesList v) = ("0x" ++ String.concat "|" (map hexString v))%string.
Proof. exact (format_bytes_segments v). Qed.


(** *** Strings *)

Lemma asciiZ_inj (a b : ascii) : asciiZ a = asciiZ b -> a = b.
Proof.
  unfold asciiZ. intros H. apply N2Z.inj in H.
  rewrite <- (ascii_N_embedding a), <- (ascii_N_embedding b). now rewrite H.
Qed.

Lemma quoteLoop_plain (l : list ascii) :
  Forall (fun c => 32 <= asciiZ c <= 126 /\ c <> dquote /\ c <> backslash) l ->
  strconv.quoteLoop isPrintTable 0 l = string_of_list_ascii l.
Proof.
  induction 1 as [|c t (Hrange & Hq & Hb) _ IH]; [reflexivity|].
  cbn [strconv.quoteLoop map strconv.DecodeRune].
  assert (H80 : (asciiZ c <? 128) = true) by (apply Z.ltb_lt; lia).
  rewrite H80. cbn [Nat.eqb andb firstn string_of_list_ascii Nat.sub].
  assert (Herr : (asciiZ c =? strconv.RuneError) = false).
  { apply Z.eqb_neq. unfold strconv.RuneError. lia. }
  rewrite Herr. unfold strconv.escapedRune.
  assert (Hq' : (asciiZ c =? asciiZ dquote) = false).
  { apply Z.eqb_neq. intros E. now apply asciiZ_inj in E. }
  assert (Hb' : (asciiZ c =? asciiZ backslash) = false).
  { apply Z.eqb_neq. intros E. now apply asciiZ_inj in E. }
  rewrite Hq', Hb'. cbn [orb].
  assert (Hp : strconv.IsPrint isPrintTable (asciiZ c) = true).
  { unfold strconv.IsPrint, strconv.between.
    replace (asciiZ c <=? 255) with true by (symmetry; apply Z.leb_le; lia).
    replace (32 <=? asciiZ c) with true by (symmetry; apply Z.leb_le; lia).
    replace (asciiZ c <=? 126) with true by (symmetry; apply Z.leb_le; lia).
    reflexivity. }
  rewrite Hp, IH. reflexivity.
Qed.

(** X7.  A string of printable ASCII characters without double quote and
    backslash is formatted as itself between two double quotes. *)
Theorem format_plain_string (s : string) :
  plainASCII s ->
  format (VString s) = String dquote (s ++ str1 dquote).
Proof.
  intros H. cbn [format]. unfold strconv.Quote.
  now rewrite (quoteLoop_plain _ H), string_of_list_ascii_of_string.
Qed.


(** *** Line breaks *)

Lemma list_ascii_append (a b : string) :
  list_ascii_of_string (a ++ b) = list_ascii_of_string a ++ list_ascii_of_string b.
Proof. induction a; simpl; congruence. Qed.

Lemma oneLine_append (a b : string) :
  oneLine a -> oneLine b -> oneLine (a ++ b).
Proof.
  unfold oneLine, hasChar. rewrite list_ascii_append, in_app_iff. tauto.
Qed.

Lemma oneLine_String (c : ascii) (s : string) :
  c <> newline -> oneLine s -> oneLine (String c s).
Proof. unfold oneLine, hasChar. cbn. intros Hc Hs [H|H]; auto. Qed.

Lemma oneLine_empty : oneLine "".
Proof. intros []. Qed.

(** Strings that are written out: every character is compared. *)
Ltac literal :=
  repeat (apply oneLine_String; [discriminate|]); apply oneLine_empty.

Lemma oneLine_concat (sep : string) (l : list string) :
  oneLine sep -> Forall oneLine l -> oneLine (String.concat sep l).
Proof.
  intros Hsep Hl. induction Hl as [|x l Hx Hl IH]; [apply oneLine_empty|].
  destruct l as [|y l]; [exact Hx|].
  cbn [String.concat] in *. repeat apply oneLine_append; assumption.
Qed.

Lemma oneLine_uint (d : Decimal.uint) : oneLine (NilEmpty.string_of_uint d).
Proof.
  induction d; cbn [NilEmpty.string_of_uint];
    [apply oneLine_empty | apply oneLine_String; [discriminate | assumption] ..].
Qed.

Lemma oneLine_FormatUint (v : Z) : oneLine (strconv.FormatUint v).
Proof.
  unfold strconv.FormatUint, NilZero.string_of_uint.
  destruct (N.to_uint (Z.to_N v)) eqn:E; try (rewrite <- E; apply oneLine_uint).
  literal.
Qed.

Lemma oneLine_FormatInt (v : Z) : oneLine (strconv.FormatInt v).
Proof.
  unfold strconv.FormatInt, NilZero.string_of_int.
  destruct (Z.to_int v) as [d|d].
  - unfold NilZero.string_of_uint.
    destruct d eqn:E; try (rewrite <- E; apply oneLine_uint). literal.
  - apply oneLine_String; [discriminate|]. unfold NilZero.string_of_uint.
    destruct d eqn:E; try (rewrite <- E; apply oneLine_uint). literal.
Qed.

Lemma oneLine_zeros (n : nat) : oneLine (string_of_list_ascii (repeat "0"%char n)).
Proof.
  induction n; cbn; [apply oneLine_empty | apply oneLine_String; [discriminate | assumption]].
Qed.

Lemma oneLine_FormatFloat_f (f : spec_float) (prec : Z) :
  oneLine (strconv.FormatFloat_f f prec).
Proof.
  assert (Hfixed : forall neg scaled, oneLine (strconv.fixed neg prec scaled)).
  { intros neg scaled. unfold strconv.fixed, strconv.padded.
    repeat apply oneLine_append.
    - destruct neg; literal.
    - apply oneLine_FormatUint.
    - destruct (0 <? prec); [|literal].
      apply oneLine_append; [literal|].
      apply oneLine_append; [apply oneLine_zeros | apply oneLine_FormatUint]. }
  destruct f as [s|s| |s m e]; cbn [strconv.FormatFloat_f];
    try apply Hfixed; try destruct s; literal.
Qed.

Lemma digit_not_newline (d : Z) : hex.digit d <> newline.
Proof.
  unfold hex.digit, hex.hextable.
  destruct (Z.to_nat d) as [|n]; [discriminate|].
  do 15 (destruct n as [|n]; [discriminate|]). discriminate.
Qed.

Lemma oneLine_hexString (src : list byte) : oneLine (hexString src).
Proof.
  induction src as [|b src IH]; [apply oneLine_empty|].
  rewrite hexString_cons. apply oneLine_append; [|exact IH].
  unfold hex.encodeByte.
  repeat (apply oneLine_String; [apply digit_not_newline|]). apply oneLine_empty.
Qed.

Lemma oneLine_hexDigits (width : nat) :
  forall n, oneLine (strconv.hexDigits width n).
Proof.
  induction width as [|w IH]; intros n; cbn [strconv.hexDigits]; [apply oneLine_empty|].
  apply oneLine_append; [apply IH|].
  apply oneLine_String; [apply digit_not_newline | apply oneLine_empty].
Qed.

(** What [DecodeRune] consumes: one byte, which is the rune itself when
    it is below 128, or two to four bytes that are all at least 128. *)
Lemma DecodeRune_raw (c : ascii) (t : list ascii) :
  let res := strconv.DecodeRune (map asciiZ (c :: t)) in
  (snd res = 1%nat
   /\ (fst res = asciiZ c /\ asciiZ c < 128 \/ fst res = strconv.RuneError))
  \/ ((2 <= snd res)%nat
      /\ Forall (fun a => 128 <= asciiZ a) (firstn (snd res) (c :: t))).
Proof.
  cbv zeta. cbn [map strconv.DecodeRune]. unfold strconv.between.
  destruct (asciiZ c <? 128) eqn:H0.
  { apply Z.ltb_lt in H0. left. cbn. auto. }
  apply Z.ltb_ge in H0.
  repeat match goal with
         | |- context [match map asciiZ ?l with _ => _ end] =>
             destruct l; cbn [map]
         | |- context [if ?b then (_, _) else (_, _)] => destruct b eqn:?
         | |- context [if ?b && ?b' then (_, _) else (_, _)] => destruct (b && b') eqn:?
         end;
    try (left; cbn [fst snd]; split; [reflexivity | right; reflexivity]);
    right; cbn [fst snd firstn]; (split; [lia|]);
    repeat match goal with
           | H : (_ && _) = true |- _ => apply andb_true_iff in H; destruct H
           | H : (_ <=? _) = true |- _ => apply Z.leb_le in H
           end;
    repeat match goal with
           | H : context [if ?b then _ else _] |- _ => destruct b
           end;
    repeat constructor; lia.
Qed.

Lemma oneLine_raw (l : list ascii) :
  Forall (fun a => 128 <= asciiZ a) l -> oneLine (string_of_list_ascii l).
Proof.
  induction 1 as [|a l Ha _ IH]; [apply oneLine_empty|].
  cbn. apply oneLine_String; [|exact IH].
  intros ->. vm_compute in Ha. now apply Ha.
Qed.

Lemma oneLine_escapedRune (r : Z) (raw : string) :
  (r = asciiZ dquote \/ r = asciiZ backslash
   \/ strconv.IsPrint isPrintTable r = true -> oneLine raw) ->
  oneLine (strconv.escapedRune isPrintTable r raw).
Proof.
  intros Hraw. unfold strconv.escapedRune.
  destruct ((r =? asciiZ dquote) || (r =? asciiZ backslash)) eqn:Hq.
  { apply oneLine_String; [discriminate|]. apply Hraw.
    apply orb_true_iff in Hq. destruct Hq as [H|H]; apply Z.eqb_eq in H; auto. }
  destruct (strconv.IsPrint isPrintTable r) eqn:Hp; [now apply Hraw; auto|].
  repeat match goal with
         | |- oneLine (if ?b then _ else _) => destruct b
         end;
    try literal;
    (apply oneLine_append; [literal | apply oneLine_hexDigits]).
Qed.

Lemma oneLine_quoteLoop (s : list ascii) :
  forall skip, oneLine (strconv.quoteLoop isPrintTable skip s).
Proof.
  induction s as [|c t IH]; intros skip; [apply oneLine_empty|].
  cbn [strconv.quoteLoop]. destruct skip as [|k]; [|apply IH].
  pose proof (DecodeRune_raw c t) as Hd. cbv zeta in Hd.
  destruct (strconv.DecodeRune (map asciiZ (c :: t))) as [r width].
  cbn [fst snd] in Hd. apply oneLine_append; [|apply IH].
  destruct ((width =? 1)%nat && (r =? strconv.RuneError)) eqn:Hinv.
  { apply oneLine_append; [literal | apply oneLine_hexDigits]. }
  apply oneLine_escapedRune. intros Hr.
  destruct Hd as [(-> & [(-> & Hlt) | ->]) | (Hw & Hall)].
  - cbn [firstn string_of_list_ascii].
    apply oneLine_String; [|apply oneLine_empty]. intros ->.
    destruct Hr as [Hr | [Hr | Hr]]; try (vm_compute in Hr; discriminate).
  - cbn [Nat.eqb andb] in Hinv. rewrite Z.eqb_refl in Hinv. discriminate.
  - now apply oneLine_raw.
Qed.

Lemma oneLine_Quote (s : string) : oneLine (strconv.Quote isPrintTable s).
Proof.
  unfold strconv.Quote. apply oneLine_String; [discriminate|].
  apply oneLine_append; [apply oneLine_quoteLoop | literal].
Qed.

Lemma oneLine_format (i : GoValue) : handled i = true -> oneLine (format i).
Proof.
  assert (Hhex : forall src, oneLine ("0x" ++ hexString src)).
  { intros src. apply (oneLine_append "0x"); [literal | apply oneLine_hexString]. }
  intros Hi.
  destruct i as [|v|v|v|v|v|v|v|v|v|v|v|v|v|v|v|v|v|v|v|r msg|r];
    try discriminate Hi;
    try (cbn [format];
         first [ apply oneLine_FormatInt | apply oneLine_FormatUint
               | apply oneLine_FormatFloat_f | apply oneLine_Quote ]).
  - apply oneLine_empty.
  - rewrite format_bytes_hexString. apply Hhex.
  - rewrite format_bytes_segments. apply (oneLine_append "0x"); [literal|].
    apply oneLine_concat; [literal|].
    apply Forall_forall. intros x Hx. apply in_map_iff in Hx.
    destruct Hx as (b & <- & _). apply oneLine_hexString.
  - cbn [format]. rewrite appendHex_hexString. apply Hhex.
  - cbn [format]. rewrite appendHex_hexString. apply Hhex.
  - destruct v as [v|]; cbn [format]; [|literal].
    rewrite appendHex_hexString. apply Hhex.
  - destruct v; cbn [format]; literal.
Qed.


Lemma oneLine_FuncCall_String (f : FuncCall) :
  oneLine (Name f) -> Forall oneLine (Args f) -> Forall oneLine (Results f) ->
  oneLine (FuncCall_String f).
Proof.
  intros Hn Ha Hr. unfold FuncCall_String. rewrite !Join_concat.
  assert (Hsep : oneLine ", ") by literal.
  destruct (len (Results f) =? 0);
    repeat apply oneLine_append;
    try assumption; try (apply oneLine_concat; assumption); literal.
Qed.

Lemma oneLine_map_format (vs : list GoValue) :
  Forall (fun v => handled v = true) vs -> Forall oneLine (map format vs).
Proof.
  induction 1 as [|v vs Hv _ IH]; cbn [map]; constructor;
    [now apply oneLine_format | exact IH].
Qed.

(** X8.  When the name of a function has no line break and the arguments
    and results are of types the formatter handles without [reflect],
    the text messages of its enter and leave events have exactly one line
    break, the last byte: strings are quoted with their line breaks
    escaped, and numbers, booleans and byte sequences have none. *)
Theorem text_message_one_line (now id : Z) (name : string)
        (args results : list GoValue) :
  oneLine name ->
  Forall (fun v => handled v = true) args ->
  Forall (fun v => handled v = true) results ->
  (exists s, encoding FormatText (enterEvent now id name args)
             = Some (list_byte_of_string s ++ [x0a])
             /\ oneLine s)
  /\ (exists s, encoding FormatText (leaveEvent now id name args results)
                = Some (list_byte_of_string s ++ [x0a])
                /\ oneLine s).
Proof.
  intros Hn Ha Hr.
  assert (Hname : forall suffix, oneLine suffix ->
                                 oneLine (name ++ separator ++ suffix)).
  { intros suffix Hs. repeat apply oneLine_append; try assumption.
    unfold separator. literal. }
  assert (Hargs : Forall oneLine ([strconv.FormatUint id] ++ map format args)).
  { cbn [app]. constructor; [apply oneLine_FormatUint | now apply oneLine_map_format]. }
  split; eexists; (split; [reflexivity|]); apply oneLine_FuncCall_String;
    cbn [Name Args Results enterEvent leaveEvent];
    try exact Hargs; try (constructor; fail);
    try (now apply oneLine_map_format);
    apply Hname; unfold EnterSuffix, LeaveSuffix; literal.
Qed.

(** *** Marshaling *)



(** X10.  [formatEvent] gives no message exactly when the format is JSON
    or CBOR and the marshaler fails, or when the format is none of the
    four; it prints a diagnostic only for a failure of the CBOR
    marshaler, a failure of the JSON marshaler stays silent.  The text
    and debug formats always give a message. *)
Theorem formatEvent_failure (fn : FuncCall) (fmt : Format) :
  (fst (formatEvent fn fmt) = None
   <-> (fmt = FormatJSON /\ exists e, json_Marshal (toTimedEvent fn) = inr e)
       \/ (fmt = FormatCBOR /\ exists e, cbor_Marshal (toTimedEvent fn) = inr e)
       \/ exists n, fmt = FormatUnknown n)
  /\ (snd (formatEvent fn fmt) <> []
      <-> fmt = FormatCBOR /\ exists e, cbor_Marshal (toTimedEvent fn) = inr e)
  /\ (snd (formatEvent fn fmt) = [] \/ snd (formatEvent fn fmt) = [MsgFormatError]).
Proof.
  destruct fmt as [| | | |n]; cbn [formatEvent].
  - destruct (json_Marshal (toTimedEvent fn)) as [b|e]; cbn [fst snd].
    + split; [|split; [|now left]].
      * split; [discriminate|].
        intros [(_ & e & He) | [(H & _) | (n & H)]]; discriminate.
      * split; [congruence | intros (H & _); discriminate].
    + split; [|split; [|now left]].
      * split; [intros _; left; eauto | reflexivity].
      * split; [congruence | intros (H & _); discriminate].
  - destruct (cbor_Marshal (toTimedEvent fn)) as [b|e]; cbn [fst snd].
    + split; [|split; [|now left]].
      * split; [discriminate|].
        intros [(H & _) | [(_ & e & He) | (n & H)]]; discriminate.
      * split; [congruence | intros (_ & e & He); discriminate].
    + split; [|split; [|now right]].
      * split; [intros _; right; left; eauto | reflexivity].
      * split; [intros _; eauto | discriminate].
  - cbn [fst snd]. split; [|split; [|now left]].
    + split; [discriminate|].
      intros [(H & _) | [(H & _) | (n & H)]]; discriminate.
    + split; [congruence | intros (H & _); discriminate].
  - cbn [fst snd]. split; [|split; [|now left]].
    + split; [discriminate|].
      intros [(H & _) | [(H & _) | (n & H)]]; discriminate.
    + split; [congruence | intros (H & _); discriminate].
  - cbn [fst snd]. split; [|split; [|now left]].
    + split; [intros _; right; right; eauto | reflexivity].
    + split; [congruence | intros (H & _); discriminate].
Qed.


(** *** Delivery across reconnections *)

Lemma delivered_app (a b : list Action) :
  delivered (a ++ b) = delivered a ++ delivered b.
Proof. apply flat_map_app. Qed.

Lemma delivered_writes (tr : list Action) :
  delivered tr = map fst (filter snd (writes tr)).
Proof.
  induction tr as [|a tr IH]; [reflexivity|].
  change (delivered (a :: tr))
    with (match a with ActWrite b true => [b] | _ => [] end ++ delivered tr).
  change (writes (a :: tr))
    with (match a with ActWrite b ok => [(b, ok)] | _ => [] end ++ writes tr).
  rewrite IH.
  destruct a as [fn|n a t ok|d| |b ok| |m]; try reflexivity.
  destruct ok; reflexivity.
Qed.

Lemma delivered_okWrite (l : list (list byte)) :
  map fst (filter snd (map okWrite l)) = l.
Proof. induction l as [|b l IH]; cbn; [reflexivity | now rewrite IH]. Qed.

Lemma logged_app (a b : list Action) : logged (a ++ b) = logged a ++ logged b.
Proof. apply flat_map_app. Qed.

Lemma received_app (a b : list Action) : received (a ++ b) = received a ++ received b.
Proof. apply flat_map_app. Qed.

Lemma noEviction_app (a b : list Action) :
  noEviction (a ++ b) <-> noEviction a /\ noEviction b.
Proof.
  unfold noEviction. rewrite logged_app, filter_app. split.
  - intros H. now apply app_eq_nil in H.
  - intros [-> ->]. reflexivity.
Qed.

Lemma drainLoop_no_eviction (arrivals : list FuncCall) :
  forall backlog count,
    noEviction (snd (drainLoop arrivals backlog count)) ->
    fst (drainLoop arrivals backlog count) = backlog ++ arrivals.
Proof.
  induction arrivals as [|fn rest IH]; intros backlog count H; cbn [drainLoop] in *.
  - cbn [fst]. now rewrite app_nil_r.
  - unfold drainStep in *.
    destruct (len (backlog ++ [fn]) >? backlogLimit).
    + specialize (IH (skipn evictBatch (backlog ++ [fn])) (count + 1)).
      destruct (drainLoop rest (skipn evictBatch (backlog ++ [fn])) (count + 1))
        as [final tr].
      cbn [snd] in H. unfold noEviction in H. cbn in H. discriminate H.
    + specialize (IH (backlog ++ [fn]) (count + 1)).
      destruct (drainLoop rest (backlog ++ [fn]) (count + 1)) as [final tr].
      cbn [fst snd map app] in *.
      rewrite IH by exact H. now rewrite <- app_assoc.
Qed.

Ltac observing :=
  unfold received, writes, dials, waits, logged, delivered in *;
  repeat (rewrite ?flat_map_app, ?(flat_map_ActLog _ _ (fun _ => eq_refl));
          cbn [flat_map app]).

Lemma sendingLoop_delivered (fmt : Format) (c : Conn) (queue : list FuncCall) :
  forall k sent0,
    encodings fmt (received (snd (sendingLoop fmt c k sent0 queue)))
    = delivered (snd (sendingLoop fmt c k sent0 queue))
        ++ match fst (fst (fst (sendingLoop fmt c k sent0 queue))) with
           | SendFailed fn => encodings fmt [fn]
           | SendWaiting => []
           end.
Proof.
  induction queue as [|fn rest IH]; intros k sent0; cbn [sendingLoop].
  - reflexivity.
  - destruct (formatEvent fn fmt) as [[bytes|] logs] eqn:Hfn.
    + destruct (writeOk c k) eqn:Hok.
      * specialize (IH (S k) (wrap64 (sent0 + 1))).
        destruct (sendingLoop fmt c (S k) (wrap64 (sent0 + 1)) rest)
          as [[[out sent'] q'] tr].
        cbn [fst snd] in *.
        destruct (wrap64 (sent0 + 1) mod 1000 =? 0); observing;
          rewrite encodings_cons, (encoding_eq _ _ _ _ Hfn), IH; reflexivity.
      * cbn [fst snd]. observing. reflexivity.
    + specialize (IH k sent0).
      destruct (sendingLoop fmt c k sent0 rest) as [[[out sent'] q'] tr].
      cbn [fst snd] in *. observing.
      rewrite encodings_cons, (encoding_eq _ _ _ _ Hfn), IH. reflexivity.
Qed.

Lemma established_delivered (network addr : string) (c : Conn) (w : Worker) :
  delivered (established network addr c w) = []
  /\ filter isOverflow (logged (established network addr c w)) = [].
Proof.
  unfold established.
  destruct (String.eqb network "tcp"), (keepAliveOk c), (keepAlivePeriodOk c);
    split; reflexivity.
Qed.

Lemma iteration_conserves (fmt : Format) (network addr : string) (r : Round)
      (w : Worker) (queue : list FuncCall) :
  received (snd (fst (iteration fmt network addr r w queue)))
    ++ snd (fst (fst (iteration fmt network addr r w queue))) = queue
  /\ (noEviction (snd (fst (iteration fmt network addr r w queue))) ->
      encodings fmt
        (eventBacklog w ++ received (snd (fst (iteration fmt network addr r w queue))))
      = delivered (snd (fst (iteration fmt network addr r w queue)))
          ++ encodings fmt
               (eventBacklog (fst (fst (fst (iteration fmt network addr r w queue)))))).
Proof.
  unfold iteration. destruct r as [ready|c].
  - pose proof (drainLoop_trace (firstn ready queue) (eventBacklog w) 0) as Ht.
    pose proof (drainLoop_no_eviction (firstn ready queue) (eventBacklog w) 0) as Hn.
    destruct (drainLoop (firstn ready queue) (eventBacklog w) 0) as [b tr].
    cbn [fst snd eventBacklog] in *. destruct Ht as (_ & _ & Hw & Hr).
    rewrite !received_app, delivered_app, Hr, (delivered_writes tr), Hw.
    split; [apply firstn_skipn|].
    intros Hne. apply (noEviction_app [_; _; _] tr) in Hne. destruct Hne as [_ Hne].
    rewrite (Hn Hne). reflexivity.
  - pose proof (flushFrom_spec fmt c (eventBacklog w) 0 0 (sent w)) as Hf.
    pose proof (flushFrom_quiet fmt c (eventBacklog w) 0 0 (sent w)) as Hq.
    destruct (established_trace network addr c w) as (_ & _ & Her & _).
    destruct (established_delivered network addr c w) as (Hed & _).
    destruct (flushFrom fmt c 0 0 (sent w) (eventBacklog w)) as [[[out k] sent1] ftr].
    cbn [fst snd] in Hf, Hq. destruct Hf as (_ & Hfs). destruct Hq as (_ & _ & Hfr).
    destruct out as [|i].
    + destruct Hfs as (Hfw & _).
      pose proof (sendingLoop_spec fmt c queue k sent1) as Hs.
      pose proof (sendingLoop_delivered fmt c queue k sent1) as Hd.
      destruct (sendingLoop fmt c k sent1 queue) as [[[sout sent2] queue'] str].
      cbn [fst snd] in Hs, Hd. destruct Hs as (_ & Hsr & _).
      assert (Hdf : delivered ftr = encodings fmt (eventBacklog w)).
      { now rewrite delivered_writes, Hfw, delivered_okWrite. }
      destruct sout as [fn|]; cbn [fst snd eventBacklog];
        rewrite ?received_app, ?delivered_app, Her, Hfr, Hed, Hdf;
        cbn [received delivered flat_map app]; rewrite ?app_nil_r;
        (split; [exact Hsr|]); intros _;
        rewrite encodings_app, Hd, <- ?app_assoc; cbn [app];
        rewrite ?app_nil_r; reflexivity.
    + destruct Hfs as (n & fn & bytes & Hi & Hn & He & Hw). cbn [Nat.add] in Hi. subst i.
      cbn [fst snd eventBacklog].
      rewrite !received_app, !delivered_app, Her, Hfr, Hed.
      cbn [received delivered flat_map app]. rewrite !app_nil_r.
      split; [reflexivity|]. intros _.
      rewrite delivered_writes, Hw, filter_app, map_app, delivered_okWrite.
      cbn [filter snd map app]. rewrite app_nil_r, <- encodings_app.
      now rewrite firstn_skipn.
Qed.

(** What a run receives and writes, against the queue. *)
Lemma run_conserves (fmt : Format) (network addr : string)
        (rounds : list Round) :
  forall (w : Worker) (queue : list FuncCall),
    noEviction (snd (run fmt network addr rounds w queue)) ->
    received (snd (run fmt network addr rounds w queue))
      ++ snd (fst (run fmt network addr rounds w queue)) = queue
    /\ encodings fmt
         (eventBacklog w ++ received (snd (run fmt network addr rounds w queue)))
       = delivered (snd (run fmt network addr rounds w queue))
           ++ encodings fmt
                (eventBacklog (fst (fst (run fmt network addr rounds w queue)))).
Proof.
  induction rounds as [|r rest IH]; intros w queue Hne; cbn [run] in *.
  - cbn. split; [reflexivity | now rewrite app_nil_r].
  - destruct (iteration_conserves fmt network addr r w queue) as (Hq & Hc).
    destruct (iteration fmt network addr r w queue) as [[[w' queue'] tr] again].
    cbn [fst snd] in Hq, Hc. destruct again.
    + specialize (IH w' queue').
      destruct (run fmt network addr rest w' queue') as [[w'' queue''] tr'].
      cbn [fst snd] in *. apply noEviction_app in Hne. destruct Hne as [Hne Hne'].
      destruct (IH Hne') as (IHq & IHc).
      rewrite received_app, delivered_app. split.
      * now rewrite <- app_assoc, IHq.
      * rewrite app_assoc, encodings_app, (Hc Hne), <- app_assoc, <- encodings_app, IHc.
        now rewrite app_assoc.
    + cbn [fst snd] in *. split; [exact Hq | now apply Hc].
Qed.

(** X11.  Over any number of failed dials, connections and broken
    connections, the events the worker takes from the queue are the
    queue's first events; and as long as the backlog never overflows, the
    messages written with success, followed by the messages of the
    backlog, are the messages of the events the worker started with and
    received since, in that order: every one once, none out of order. *)
Theorem run_conserves_order (fmt : Format) (network addr : string)
        (rounds : list Round) :
  forall (w : Worker) (queue : list FuncCall),
    noEviction (snd (run fmt network addr rounds w queue)) ->
    received (snd (run fmt network addr rounds w queue))
      ++ snd (fst (run fmt network addr rounds w queue)) = queue
    /\ encodings fmt
         (eventBacklog w ++ received (snd (run fmt network addr rounds w queue)))
       = delivered (snd (run fmt network addr rounds w queue))
           ++ encodings fmt
                (eventBacklog (fst (fst (run fmt network addr rounds w queue)))).
Proof. exact (run_conserves fmt network addr rounds). Qed.


Lemma formatEvent_no_overflow (fn : FuncCall) (fmt : Format) :
  filter isOverflow (snd (formatEvent fn fmt)) = [].
Proof.
  destruct fmt; cbn [formatEvent]; try reflexivity.
  - destruct (json_Marshal (toTimedEvent fn)); reflexivity.
  - destruct (cbor_Marshal (toTimedEvent fn)); reflexivity.
Qed.

Lemma noEviction_logs (fn : FuncCall) (fmt : Format) (tr : list Action) :
  noEviction tr -> noEviction (map ActLog (snd (formatEvent fn fmt)) ++ tr).
Proof.
  intros H. apply noEviction_app. split; [|exact H].
  unfold noEviction. rewrite logged_ActLog. apply formatEvent_no_overflow.
Qed.

Lemma flushFrom_all_ok (fmt : Format) (c : Conn) (pending : list FuncCall) :
  (forall k, writeOk c k = true) ->
  forall i k sent0,
    fst (fst (fst (flushFrom fmt c i k sent0 pending))) = FlushDone
    /\ noEviction (snd (flushFrom fmt c i k sent0 pending)).
Proof.
  intros Hok. induction pending as [|fn rest IH]; intros i k sent0; cbn [flushFrom].
  - split; reflexivity.
  - pose proof (noEviction_logs fn fmt) as Hlogs.
    destruct (formatEvent fn fmt) as [[bytes|] logs]; cbn [snd] in Hlogs.
    + rewrite Hok. specialize (IH (S i) (S k) (wrap64 (sent0 + 1))).
      destruct (flushFrom fmt c (S i) (S k) (wrap64 (sent0 + 1)) rest)
        as [[[out k'] sent'] tr].
      cbn [fst snd] in *. destruct IH as (-> & Hne).
      split; [reflexivity|]. apply Hlogs. exact Hne.
    + specialize (IH (S i) k sent0).
      destruct (flushFrom fmt c (S i) k sent0 rest) as [[[out k'] sent'] tr].
      cbn [fst snd] in *. destruct IH as (-> & Hne).
      split; [reflexivity|]. now apply Hlogs.
Qed.

Lemma sendingLoop_all_ok (fmt : Format) (c : Conn) (queue : list FuncCall) :
  (forall k, writeOk c k = true) ->
  forall k sent0,
    fst (fst (fst (sendingLoop fmt c k sent0 queue))) = SendWaiting
    /\ snd (fst (sendingLoop fmt c k sent0 queue)) = []
    /\ noEviction (snd (sendingLoop fmt c k sent0 queue)).
Proof.
  intros Hok. induction queue as [|fn rest IH]; intros k sent0; cbn [sendingLoop].
  - repeat split.
  - pose proof (noEviction_logs fn fmt) as Hlogs.
    destruct (formatEvent fn fmt) as [[bytes|] logs]; cbn [snd] in Hlogs.
    + rewrite Hok. specialize (IH (S k) (wrap64 (sent0 + 1))).
      destruct (sendingLoop fmt c (S k) (wrap64 (sent0 + 1)) rest)
        as [[[out sent'] q'] tr].
      cbn [fst snd] in *. destruct IH as (-> & -> & Hne).
      split; [reflexivity|]. split; [reflexivity|].
      apply (noEviction_app [ActRecv fn]). split; [reflexivity|].
      apply Hlogs. apply (noEviction_app [ActWrite bytes true]). split; [reflexivity|].
      apply noEviction_app. split; [|exact Hne].
      destruct (wrap64 (sent0 + 1) mod 1000 =? 0); reflexivity.
    + specialize (IH k sent0).
      destruct (sendingLoop fmt c k sent0 rest) as [[[out sent'] q'] tr].
      cbn [fst snd] in *. destruct IH as (-> & -> & Hne).
      split; [reflexivity|]. split; [reflexivity|].
      apply (noEviction_app [ActRecv fn]). split; [reflexivity|]. now apply Hlogs.
Qed.

Lemma drainLoop_fits (arrivals : list FuncCall) :
  forall backlog count,
    len (backlog ++ arrivals) <= backlogLimit ->
    noEviction (snd (drainLoop arrivals backlog count)).
Proof.
  induction arrivals as [|fn rest IH]; intros backlog count H; cbn [drainLoop].
  - cbn [snd]. destruct (count >? 0); reflexivity.
  - rewrite drainStep_keep.
    + specialize (IH (backlog ++ [fn]) (count + 1)).
      destruct (drainLoop rest (backlog ++ [fn]) (count + 1)) as [final tr].
      cbn [snd map app] in *. apply (noEviction_app [ActRecv fn]).
      split; [reflexivity|]. apply IH. now rewrite <- app_assoc.
    + rewrite !len_app in *. unfold len in *. cbn [List.length] in *. lia.
Qed.

Lemma firstn_plus {A : Type} (n m : nat) :
  forall l : list A, firstn (n + m) l = firstn n l ++ firstn m (skipn n l).
Proof.
  induction n as [|n IH]; intros l; [reflexivity|].
  destruct l as [|x l]; cbn [Nat.add firstn skipn app].
  - now rewrite firstn_nil.
  - now rewrite IH.
Qed.

(** Failed dials, one after the other: as long as the events that arrive
    meanwhile fit in the backlog, they are appended to it, and nothing
    is evicted. *)
Lemma run_failed_dials (fmt : Format) (network addr : string)
      (more : list Round) (readies : list nat) :
  forall (w : Worker) (queue : list FuncCall),
    len (eventBacklog w ++ firstn (list_sum readies) queue) <= backlogLimit ->
    exists w1 queue1 tr1,
      run fmt network addr (map DialFail readies ++ more) w queue
      = (fst (fst (run fmt network addr more w1 queue1)),
         snd (fst (run fmt network addr more w1 queue1)),
         tr1 ++ snd (run fmt network addr more w1 queue1))
      /\ noEviction tr1
      /\ eventBacklog w1 ++ queue1 = eventBacklog w ++ queue
      /\ sent w1 = sent w
      /\ eventBacklog w1 = eventBacklog w ++ firstn (list_sum readies) queue
      /\ queue1 = skipn (list_sum readies) queue.
Proof.
  induction readies as [|ready rest IH]; intros w queue Hfit.
  - exists w, queue, []. cbn [map app list_sum fold_right firstn skipn].
    destruct (run fmt network addr more w queue) as [[w' q'] tr'].
    rewrite app_nil_r. repeat split.
  - cbn [map app run iteration].
    change (list_sum (ready :: rest)) with (ready + list_sum rest)%nat in *.
    rewrite firstn_plus in Hfit.
    pose proof (drainLoop_fits (firstn ready queue) (eventBacklog w) 0) as Hne.
    pose proof (drainLoop_no_eviction (firstn ready queue) (eventBacklog w) 0) as Hb.
    destruct (drainLoop (firstn ready queue) (eventBacklog w) 0) as [b tr].
    cbn [fst snd] in *.
    assert (Hfit' : len (eventBacklog w ++ firstn ready queue) <= backlogLimit).
    { rewrite !len_app in *. unfold len in *. lia. }
    specialize (Hne Hfit'). specialize (Hb Hne). subst b.
    destruct (IH (mkWorker (nextRetry (currentRetry w))
                           (eventBacklog w ++ firstn ready queue) (sent w))
                 (skipn ready queue))
      as (w1 & q1 & tr1 & Hrun & Hne1 & Hcat & Hsent & Hback & Hrest).
    { cbn [eventBacklog]. now rewrite <- app_assoc. }
    rewrite Hrun.
    exists w1, q1,
      (([ActDial network addr dialTimeout false;
         ActLog (MsgDialFailed addr (currentRetry w));
         ActAfter (currentRetry w)] ++ tr) ++ tr1).
    split; [now rewrite <- !app_assoc|].
    split; [apply noEviction_app; split; [|exact Hne1];
            apply noEviction_app; split; [reflexivity | exact Hne]|].
    cbn [eventBacklog sent] in *.
    split; [now rewrite Hcat, <- app_assoc, firstn_skipn|].
    split; [exact Hsent|].
    split; [now rewrite Hback, firstn_plus, <- app_assoc|].
    rewrite Hrest, skipn_skipn. f_equal. lia.
Qed.

(** X12.  An outage and a recovery.  While the dial fails, for any number
    of attempts, the events that arrive pile up in the backlog; if those
    events - the ones that arrive during the failed dials, however many
    follow them in the queue - are no more than the backlog holds, the
    first connection that takes every write gets the message of every
    event of the queue, in the order of the queue - the backlog first,
    then what the queue still holds - and the worker is left with an
    empty backlog, waiting on the queue; nothing was evicted. *)
Theorem outage_then_recovery (fmt : Format) (network addr : string)
        (readies : list nat) (c : Conn) (sent0 : Z) (queue : list FuncCall) :
  (forall k, writeOk c k = true) ->
  len (firstn (list_sum readies) queue) <= backlogLimit ->
  let res := run fmt network addr (map DialFail readies ++ [DialOk c])
                 (mkWorker retryBase [] sent0) queue in
  delivered (snd res) = encodings fmt queue
  /\ received (snd res) = queue
  /\ eventBacklog (fst (fst res)) = []
  /\ snd (fst res) = []
  /\ noEviction (snd res).
Proof.
  intros Hok Hfit. cbv zeta.
  destruct (run_failed_dials fmt network addr [DialOk c] readies
              (mkWorker retryBase [] sent0) queue Hfit)
    as (w1 & q1 & tr1 & Hrun & Hne1 & Hcat & _).
  assert (Hlast : eventBacklog (fst (fst (run fmt network addr [DialOk c] w1 q1))) = []
                  /\ snd (fst (run fmt network addr [DialOk c] w1 q1)) = []
                  /\ noEviction (snd (run fmt network addr [DialOk c] w1 q1))).
  { cbn [run iteration].
    destruct (flushFrom_all_ok fmt c (eventBacklog w1) Hok 0 0 (sent w1)) as (Hout & Hnf).
    destruct (flushFrom fmt c 0 0 (sent w1) (eventBacklog w1)) as [[[out k] sent1] ftr].
    cbn [fst snd] in Hout, Hnf. subst out.
    destruct (sendingLoop_all_ok fmt c q1 Hok k sent1) as (Hs & Hq & Hns).
    destruct (sendingLoop fmt c k sent1 q1) as [[[sout sent2] queue'] str].
    cbn [fst snd] in Hs, Hq, Hns. subst sout queue'. cbn [fst snd eventBacklog].
    split; [reflexivity|]. split; [reflexivity|].
    destruct (established_delivered network addr c w1) as (_ & Hne).
    apply noEviction_app. split; [exact Hne|].
    apply noEviction_app. split; [exact Hnf|].
    apply (noEviction_app [_]). split; [reflexivity | exact Hns]. }
  destruct Hlast as (Hb & Hq & Hne2).
  assert (Hne : noEviction (snd (run fmt network addr (map DialFail readies ++ [DialOk c])
                                   (mkWorker retryBase [] sent0) queue))).
  { rewrite Hrun. cbn [snd]. apply noEviction_app. now split. }
  destruct (run_conserves fmt network addr _ _ _ Hne) as (Hrecv & Hcons).
  rewrite Hrun in *. cbn [fst snd eventBacklog app] in *.
  rewrite Hb in Hcons. rewrite Hq, app_nil_r in Hrecv.
  cbn [encodings flat_map] in Hcons. rewrite app_nil_r in Hcons.
  rewrite Hrecv in Hcons.
  repeat split; try assumption. now symmetry.
Qed.


(** *** The count of sent events *)

Lemma wrap64_add_l (a n : Z) : wrap64 (wrap64 a + n) = wrap64 (a + n).
Proof. unfold wrap64. apply Z.add_mod_idemp_l. lia. Qed.

Lemma flushFrom_sent (fmt : Format) (c : Conn) (pending : list FuncCall) :
  forall i k sent0,
    wrap64 (snd (fst (flushFrom fmt c i k sent0 pending)))
    = wrap64 (sent0 + len (delivered (snd (flushFrom fmt c i k sent0 pending)))).
Proof.
  induction pending as [|fn rest IH]; intros i k sent0; cbn [flushFrom].
  - cbn. now rewrite Z.add_0_r.
  - destruct (formatEvent fn fmt) as [[bytes|] logs].
    + destruct (writeOk c k).
      * specialize (IH (S i) (S k) (wrap64 (sent0 + 1))).
        destruct (flushFrom fmt c (S i) (S k) (wrap64 (sent0 + 1)) rest)
          as [[[out k'] sent'] tr].
        cbn [fst snd] in *. observing. rewrite IH, wrap64_add_l.
        unfold len. cbn [List.length]. f_equal. lia.
      * cbn [fst snd]. observing. cbn. now rewrite Z.add_0_r.
    + specialize (IH (S i) k sent0).
      destruct (flushFrom fmt c (S i) k sent0 rest) as [[[out k'] sent'] tr].
      cbn [fst snd] in *. observing. exact IH.
Qed.

Lemma sendingLoop_sent (fmt : Format) (c : Conn) (queue : list FuncCall) :
  forall k sent0,
    wrap64 (snd (fst (fst (sendingLoop fmt c k sent0 queue))))
    = wrap64 (sent0 + len (delivered (snd (sendingLoop fmt c k sent0 queue)))).
Proof.
  induction queue as [|fn rest IH]; intros k sent0; cbn [sendingLoop].
  - cbn. now rewrite Z.add_0_r.
  - destruct (formatEvent fn fmt) as [[bytes|] logs].
    + destruct (writeOk c k).
      * specialize (IH (S k) (wrap64 (sent0 + 1))).
        destruct (sendingLoop fmt c (S k) (wrap64 (sent0 + 1)) rest)
          as [[[out sent'] q'] tr].
        cbn [fst snd] in *.
        destruct (wrap64 (sent0 + 1) mod 1000 =? 0); observing;
          rewrite IH, wrap64_add_l; unfold len; cbn [List.length]; f_equal; lia.
      * cbn [fst snd]. observing. cbn. now rewrite Z.add_0_r.
    + specialize (IH k sent0).
      destruct (sendingLoop fmt c k sent0 rest) as [[[out sent'] q'] tr].
      cbn [fst snd] in *. observing. exact IH.
Qed.

Lemma iteration_sent (fmt : Format) (network addr : string) (r : Round)
      (w : Worker) (queue : list FuncCall) :
  wrap64 (sent (fst (fst (fst (iteration fmt network addr r w queue)))))
  = wrap64 (sent w
            + len (delivered (snd (fst (iteration fmt network addr r w queue))))).
Proof.
  unfold iteration. destruct r as [ready|c].
  - pose proof (drainLoop_trace (firstn ready queue) (eventBacklog w) 0) as Ht.
    destruct (drainLoop (firstn ready queue) (eventBacklog w) 0) as [b tr].
    cbn [fst snd sent] in *. destruct Ht as (_ & _ & Hw & _).
    rewrite delivered_app, (delivered_writes tr), Hw. cbn. now rewrite Z.add_0_r.
  - pose proof (flushFrom_sent fmt c (eventBacklog w) 0 0 (sent w)) as Hf.
    destruct (established_delivered network addr c w) as (Hed & _).
    destruct (flushFrom fmt c 0 0 (sent w) (eventBacklog w)) as [[[out k] sent1] ftr].
    cbn [fst snd] in Hf. destruct out as [|i].
    + pose proof (sendingLoop_sent fmt c queue k sent1) as Hs.
      destruct (sendingLoop fmt c k sent1 queue) as [[[sout sent2] queue'] str].
      cbn [fst snd] in Hs.
      destruct sout; cbn [fst snd sent];
        rewrite ?delivered_app, Hed; cbn [delivered flat_map app];
        rewrite ?app_nil_r, len_app, Hs, <- wrap64_add_l, Hf, wrap64_add_l;
        f_equal; lia.
    + cbn [fst snd sent]. rewrite !delivered_app, Hed.
      cbn [delivered flat_map app]. now rewrite app_nil_r.
Qed.

(** X13.  Modulo 2^64, the counter of sent events grows over a run by
    the number of writes that succeeded, in the replay of the backlog and
    in the sending loop alike; a failed write and a skipped event do not
    count. *)
Theorem sentCount_counts_writes (fmt : Format) (network addr : string)
        (rounds : list Round) :
  forall (w : Worker) (queue : list FuncCall),
    wrap64 (sent (fst (fst (run fmt network addr rounds w queue))))
    = wrap64 (sent w + len (delivered (snd (run fmt network addr rounds w queue)))).
Proof.
  induction rounds as [|r rest IH]; intros w queue; cbn [run].
  - cbn. now rewrite Z.add_0_r.
  - pose proof (iteration_sent fmt network addr r w queue) as Hi.
    destruct (iteration fmt network addr r w queue) as [[[w' queue'] tr] again].
    cbn [fst snd] in Hi. destruct again; [|exact Hi].
    specialize (IH w' queue').
    destruct (run fmt network addr rest w' queue') as [[w'' queue''] tr'].
    cbn [fst snd] in *.
    rewrite delivered_app, len_app, IH, <- wrap64_add_l, Hi, wrap64_add_l.
    f_equal. lia.
Qed.


(** *** The names of the results *)

Lemma FormatInt_inj (a b : Z) : strconv.FormatInt a = strconv.FormatInt b -> a = b.
Proof.
  unfold strconv.FormatInt. intros H.
  destruct (to_int_proper a) as [Ha1 Ha2]. destruct (to_int_proper b) as [Hb1 Hb2].
  pose proof (NilZero.isi _ Ha1 Ha2) as Ia. rewrite H, (NilZero.isi _ Hb1 Hb2) in Ia.
  injection Ia as Ia. now apply DecimalZ.to_int_inj.
Qed.

Lemma resultNamesFrom_unnamed (n : nat) :
  forall p : list string,
    resultNamesFrom p (repeat [] n)
    = p ++ map (fun k => resultPrefix ++ strconv.FormatInt (len p + Z.of_nat k))%string
               (seq 1 n).
Proof.
  induction n as [|n IH]; intros p; cbn [repeat resultNamesFrom seq map].
  - now rewrite app_nil_r.
  - rewrite IH, <- app_assoc. f_equal. cbn [app].
    rewrite <- (seq_shift n 1), map_map. f_equal.
    apply map_ext. intros k.
    rewrite len_app. unfold len. cbn [List.length]. do 2 f_equal. lia.
Qed.

Lemma resultNamesFrom_named (fields : list (list string)) :
  Forall (fun f => f <> []) fields ->
  forall p, resultNamesFrom p fields = p ++ List.concat fields.
Proof.
  induction 1 as [|f fields Hf _ IH]; intros p; cbn [resultNamesFrom List.concat].
  - now rewrite app_nil_r.
  - destruct f as [|x f]; [congruence|]. now rewrite IH, app_assoc.
Qed.

(** X14.  For a function whose [n] results are unnamed the tool makes the
    names [res1] to [resn], which are pairwise distinct and are told
    apart from declared names by their prefix; for a function whose
    results are all named it takes the declared names, in order, as for
    parameters - and it takes them for made-up names when the first one
    starts with [res]. *)
Theorem resultNames_unnamed_and_named (n : nat) (fields : list (list string)) :
  resultNames (Some (repeat [] n))
  = map (fun k => resultPrefix ++ strconv.FormatInt (Z.of_nat k))%string (seq 1 n)
  /\ NoDup (resultNames (Some (repeat [] n)))
  /\ List.length (resultNames (Some (repeat [] n))) = n
  /\ ((0 < n)%nat -> hasNamedReturn (resultNames (Some (repeat [] n))) = false)
  /\ resultNames None = []
  /\ (Forall (fun f => f <> []) fields ->
      resultNames (Some fields) = paramNames (Some fields)
      /\ hasNamedReturn (resultNames (Some fields))
         = match List.concat fields with
           | first :: _ => negb (prefix resultPrefix first)
           | [] => true
           end).
Proof.
  assert (Hun : resultNames (Some (repeat [] n))
                = map (fun k => resultPrefix ++ strconv.FormatInt (Z.of_nat k))%string
                      (seq 1 n)).
  { unfold resultNames. rewrite resultNamesFrom_unnamed. cbn [app].
    apply map_ext. intros k. reflexivity. }
  split; [exact Hun|]. rewrite Hun.
  split.
  { apply Injective_map_NoDup; [|apply seq_NoDup].
    intros a b H. unfold resultPrefix in H. cbn [append] in H.
    injection H as H. apply FormatInt_inj in H. lia. }
  split; [now rewrite length_map, length_seq|].
  split.
  { intros Hn. destruct n as [|n]; [lia|]. reflexivity. }
  split; [reflexivity|].
  intros Hnamed. unfold resultNames, paramNames.
  rewrite (resultNamesFrom_named _ Hnamed). cbn [app].
  split; reflexivity.
Qed.


(** *** The format chosen at start-up *)

(** X15.  The format read from the environment is CBOR, text or debug
    exactly for the lowercase names [cbor], [text] and [debug]; every
    other value - unset, misspelt, in capitals - gives JSON, so a logger
    set up by [init] gives every event a message unless a marshaler
    fails. *)
Theorem logFormatOf_default (env : string) (fn : FuncCall) :
  (logFormatOf env = FormatCBOR <-> env = "cbor"%string)
  /\ (logFormatOf env = FormatText <-> env = "text"%string)
  /\ (logFormatOf env = FormatDebug <-> env = "debug"%string)
  /\ (logFormatOf env = FormatJSON
      <-> env <> "cbor"%string /\ env <> "text"%string /\ env <> "debug"%string)
  /\ (fst (formatEvent fn (logFormatOf env)) = None ->
      (exists e, json_Marshal (toTimedEvent fn) = inr e)
      \/ (exists e, cbor_Marshal (toTimedEvent fn) = inr e)).
Proof.
  unfold logFormatOf.
  destruct (String.eqb_spec env "json") as [->|Hj].
  { repeat split; try discriminate; try (intros H; discriminate H).
    cbn [formatEvent]. destruct (json_Marshal (toTimedEvent fn)); cbn [fst];
      [discriminate | eauto]. }
  destruct (String.eqb_spec env "cbor") as [->|Hc].
  { repeat split; try discriminate; try (intros H; discriminate H);
      try (intros (H & _); congruence).
    cbn [formatEvent]. destruct (cbor_Marshal (toTimedEvent fn)); cbn [fst];
      [discriminate | eauto]. }
  destruct (String.eqb_spec env "text") as [->|Ht].
  { repeat split; try discriminate; try (intros H; discriminate H);
      try (intros (_ & H & _); congruence). }
  destruct (String.eqb_spec env "debug") as [->|Hd].
  { repeat split; try discriminate; try (intros H; discriminate H);
      try (intros (_ & _ & H); congruence). }
  repeat split; try discriminate; try congruence.
  cbn [formatEvent]. destruct (json_Marshal (toTimedEvent fn)); cbn [fst];
    [discriminate | eauto].
Qed.

End Runtime.

(** ** The properties on concrete inputs *)

Example float64_of_3_14159 :
  float64Const 314159 100000 = S754_finite false 7074231776675438 (-51).
Proof. vm_compute. reflexivity. Qed.

(** The quotient is rounded once, whatever the size of the operands:
    [3 * (2^53 + 1) / 3] is the tie [2^53 + 1], which goes to the even
    [2^53]; [(2^60 + 1) / (2^60 + 1)] is one; [2^53 + 3] goes up to
    [2^53 + 4]. *)
Example float64_rounds_the_quotient :
  float64Const (3 * (2 ^ 53 + 1)) 3 = S754_finite false (2 ^ 52) 1
  /\ float64Const (2 ^ 60 + 1) (2 ^ 60 + 1) = S754_finite false (2 ^ 52) (-52)
  /\ float64Const (2 ^ 53 + 3) 1 = S754_finite false (2 ^ 52 + 2) 1
  /\ float64Const (-1) 2 = S754_finite true (2 ^ 52) (-53)
  /\ float64Const 0 7 = S754_zero false.
Proof. vm_compute. repeat split. Qed.

Example isSocketAddress_table :
  isSocketAddress "localhost:8080" = true
  /\ isSocketAddress "127.0.0.1:9000" = true
  /\ isSocketAddress "example.com:443" = true
  /\ isSocketAddress "/path/to/file.log" = false
  /\ isSocketAddress "/tmp/socket.sock" = false
  /\ isSocketAddress "C:\path\to\file.log" = false
  /\ isSocketAddress "" = false
  /\ isSocketAddress "invalid" = false.
Proof. repeat split. Qed.

Example log_enter_event :
  enterEvent noTable 7 1 "testFunc" [VInt 42; VString "hello"]
  = mkFuncCall "testFunc_Enter"
      ["1"; "42"; String dquote ("hello" ++ str1 dquote)]%string [] 7.
Proof. vm_compute. reflexivity. Qed.

Example log_full_queue :
  Log "localhost:8080" (mkLogger 0 FormatText (mkChan [sampleEvent 1] 1) 0)
      (sampleEvent 2)
  = (mkLogger 0 FormatText (mkChan [sampleEvent 1] 1) 0,
     [MsgSocketBufferFull "f_Enter"]).
Proof. reflexivity. Qed.

Example log_free_queue :
  Log "localhost:8080" (mkLogger 0 FormatText (mkChan [sampleEvent 1] 2) 0)
      (sampleEvent 2)
  = (mkLogger 0 FormatText (mkChan [sampleEvent 1; sampleEvent 2] 2) 0, []).
Proof. reflexivity. Qed.

(** A write fails on the second event of a backlog of three: the first
    was written, the queue was not touched, the last two are kept. *)
Example replay_fails_at_1 :
  let res :=
    iteration noMarshal noMarshal noSyntax FormatText "tcp" "localhost:8080"
      (DialOk (failingAfter 1))
      (mkWorker retryBase [sampleEvent 1; sampleEvent 2; sampleEvent 3] 0)
      [sampleEvent 4] in
  eventBacklog (fst (fst (fst res))) = [sampleEvent 2; sampleEvent 3]
  /\ snd (fst (fst res)) = [sampleEvent 4]
  /\ received (snd (fst res)) = []
  /\ writes (snd (fst res))
     = [(list_byte_of_string "f_Enter(1)" ++ [x0a], true);
        (list_byte_of_string "f_Enter(2)" ++ [x0a], false)].
Proof. vm_compute. repeat split. Qed.

(** The connection holds for four writes: the backlog of three goes out
    first, then the first event of the queue; the second is kept. *)
Example replay_then_live :
  let res :=
    iteration noMarshal noMarshal noSyntax FormatText "tcp" "localhost:8080"
      (DialOk (failingAfter 4))
      (mkWorker retryBase [sampleEvent 1; sampleEvent 2; sampleEvent 3] 0)
      [sampleEvent 4; sampleEvent 5; sampleEvent 6] in
  eventBacklog (fst (fst (fst res))) = [sampleEvent 5]
  /\ snd (fst (fst res)) = [sampleEvent 6]
  /\ received (snd (fst res)) = [sampleEvent 4; sampleEvent 5]
  /\ map snd (writes (snd (fst res))) = [true; true; true; true; false].
Proof. vm_compute. repeat split. Qed.

(** One event too many for a full backlog: 2000 go, 8001 stay. *)
Example eviction_at_the_limit :
  let res := drainStep (repeat (sampleEvent 0) (Z.to_nat 10000)) (sampleEvent 1) in
  len (fst res) = 8001
  /\ snd res = [MsgBacklogOverflow 2000 8001]
  /\ fst res = repeat (sampleEvent 0) (Z.to_nat 8000) ++ [sampleEvent 1].
Proof. vm_compute. repeat split. Qed.

(** Seven failed dials, a connection that breaks at once, two more failed
    dials: the waits are 1, 2, 4, 8, 16, 30, 30 seconds, then 1 and 2. *)
Example backoff_run :
  let res :=
    manageConnectionAndSend noMarshal noMarshal noSyntax "localhost:8080"
      (mkLogger 0 FormatText (mkChan [] 100000) 0)
      (repeat (DialFail 0) 7 ++ [DialOk (failingAfter 0)] ++ repeat (DialFail 0) 2)
      [sampleEvent 1] in
  waits (snd res)
  = map (fun s => s * Second) [1; 2; 4; 8; 16; 30; 30; 1; 2]
  /\ map snd (dials (snd res))
     = [false; false; false; false; false; false; false; true; false; false].
Proof. vm_compute. repeat split. Qed.

(** C10, the claim as stated, fails twice.  An empty value of a defined
    string type is not the nil interface, and its formatted form is empty;
    a nil pointer of a type that implements [error] with a pointer
    receiver is formatted as the quoted text of its [Error] method, not as
    [<nil>]. *)
Lemma format_nil_claim_fails :
  (format noTable (VOther (RString "")) = ""%string
   /\ VOther (RString "") <> VNil)
  /\ (typedNilPointer (VError (RPtr 0) "boom") = true
      /\ format noTable (VError (RPtr 0) "boom") = String dquote ("boom" ++ str1 dquote)
      /\ format noTable (VError (RPtr 0) "boom") <> "<nil>"%string).
Proof.
  split; [split; [reflexivity | discriminate]|].
  split; [reflexivity|]. split; [vm_compute; reflexivity | vm_compute; discriminate].
Qed.


(** ** The further properties on concrete inputs *)

(** A failed dial during which 10000 events arrive leaves a full
    backlog: the next event evicts 2000 and 8001 stay.  With two events
    in the backlog the third is kept. *)
Lemma backlog_bounded_eviction_witness :
  let l := mkLogger 0 FormatText (mkChan [] 100000) 0 in
  let full :=
    eventBacklog
      (fst (fst (manageConnectionAndSend noMarshal noMarshal noSyntax "localhost:8080" l
                   [DialFail (Z.to_nat 10000)]
                   (repeat (sampleEvent 0) (Z.to_nat 10000))))) in
  let two :=
    eventBacklog
      (fst (fst (manageConnectionAndSend noMarshal noMarshal noSyntax "localhost:8080" l
                   [DialFail 2] [sampleEvent 1; sampleEvent 2]))) in
  len full = 10000
  /\ backlogLimit < len (full ++ [sampleEvent 1])
  /\ drainStep full (sampleEvent 1)
     = (skipn evictBatch (full ++ [sampleEvent 1]), [MsgBacklogOverflow 2000 8001])
  /\ len (skipn evictBatch (full ++ [sampleEvent 1])) = 8001
  /\ len (two ++ [sampleEvent 3]) <= backlogLimit
  /\ drainStep two (sampleEvent 3) = (two ++ [sampleEvent 3], [])
  /\ fst (drainLoop [sampleEvent 3] two 0) = two ++ [sampleEvent 3].
Proof.
  cbv zeta.
  set (l := mkLogger 0 FormatText (mkChan [] 100000) 0).
  set (full :=
         eventBacklog
           (fst (fst (manageConnectionAndSend noMarshal noMarshal noSyntax "localhost:8080" l
                        [DialFail (Z.to_nat 10000)]
                        (repeat (sampleEvent 0) (Z.to_nat 10000)))))).
  set (two :=
         eventBacklog
           (fst (fst (manageConnectionAndSend noMarshal noMarshal noSyntax "localhost:8080" l
                        [DialFail 2] [sampleEvent 1; sampleEvent 2])))).
  assert (Hlen : len full = 10000).
  { destruct (run_failed_dials noMarshal noMarshal noSyntax FormatText "tcp" "localhost:8080"
                [] [Z.to_nat 10000] (mkWorker retryBase [] 0)
                (repeat (sampleEvent 0) (Z.to_nat 10000)))
      as (w1 & q1 & tr1 & Hrun & _ & _ & _ & Hb & _).
    - vm_compute. discriminate.
    - subst full.
      change (manageConnectionAndSend noMarshal noMarshal noSyntax "localhost:8080" l
                [DialFail (Z.to_nat 10000)] (repeat (sampleEvent 0) (Z.to_nat 10000)))
        with (run noMarshal noMarshal noSyntax FormatText "tcp" "localhost:8080"
                (map DialFail [Z.to_nat 10000] ++ []) (mkWorker retryBase [] 0)
                (repeat (sampleEvent 0) (Z.to_nat 10000))).
      rewrite Hrun. cbn [run fst snd]. rewrite Hb. vm_compute. reflexivity. }
  assert (Hover : backlogLimit < len (full ++ [sampleEvent 1])).
  { rewrite len_app, Hlen. reflexivity. }
  assert (Hfits : len (two ++ [sampleEvent 3]) <= backlogLimit).
  { vm_compute. discriminate. }
  destruct (backlog_bounded_eviction noMarshal noMarshal noSyntax "localhost:8080" l
              [DialFail (Z.to_nat 10000)] (repeat (sampleEvent 0) (Z.to_nat 10000)) [])
    as (_ & _ & _ & _ & _ & _ & Hevict & _).
  destruct (backlog_bounded_eviction noMarshal noMarshal noSyntax "localhost:8080" l
              [DialFail 2] [sampleEvent 1; sampleEvent 2] [sampleEvent 3])
    as (_ & _ & _ & Hall & _ & Hkeep & _).
  split; [exact Hlen|]. split; [exact Hover|].
  split; [exact (proj1 (Hevict (sampleEvent 1) Hover))|].
  split; [exact (proj2 (Hevict (sampleEvent 1) Hover))|].
  split; [exact Hfits|].
  split; [exact (Hkeep (sampleEvent 3) Hfits) | exact (Hall Hfits)].
Defined.

(** Two failed dials, a connection that breaks at once, a failed dial, a
    connection that holds, and a round that is never run; seven failed
    dials; and a worker without a destination. *)
Lemma reconnect_backoff_witness :
  let l := mkLogger 0 FormatText (mkChan [] 100000) 0 in
  let sound := mkConn true true (fun _ => true) in
  let mixed := [DialFail 1; DialFail 0; DialOk (failingAfter 0); DialFail 0;
                DialOk sound; DialFail 0] in
  let failing := repeat (DialFail 0) 7 in
  let queue := [sampleEvent 1; sampleEvent 2] in
  let res := manageConnectionAndSend noMarshal noMarshal noSyntax "localhost:8080"
               l mixed queue in
  let out := manageConnectionAndSend noMarshal noMarshal noSyntax "localhost:8080"
               l failing queue in
  let off := manageConnectionAndSend noMarshal noMarshal noSyntax "" l mixed queue in
  "localhost:8080"%string <> ""%string
  /\ (forall r, In r failing -> roundOk r = false)
  /\ (exists n,
        (n <= List.length mixed)%nat
        /\ dials (snd res)
           = map (fun r => (5 * Second, roundOk r)) (firstn n mixed)
        /\ (mixed <> [] -> (1 <= n)%nat)
        /\ (n = List.length mixed
            \/ exists c, nth_error mixed (n - 1) = Some (DialOk c)
                         /\ snd (fst res) = []
                         /\ eventBacklog (fst (fst res)) = []))
  /\ map snd (dials (snd out)) = map roundOk failing
  /\ waits (snd out) = map backoffDelay (seq 0 (List.length failing))
  /\ dials (snd off) = []
  /\ received (snd off) = queue
  /\ backoffDelay 5 = 30 * Second.
Proof.
  cbv zeta.
  assert (Hset : "localhost:8080"%string <> ""%string) by discriminate.
  assert (Hfail : forall r, In r (repeat (DialFail 0) 7) -> roundOk r = false).
  { intros r Hr. apply repeat_spec in Hr. subst r. reflexivity. }
  destruct (reconnect_backoff noMarshal noMarshal noSyntax "localhost:8080"
              (mkLogger 0 FormatText (mkChan [] 100000) 0)
              [DialFail 1; DialFail 0; DialOk (failingAfter 0); DialFail 0;
               DialOk (mkConn true true (fun _ => true)); DialFail 0]
              [sampleEvent 1; sampleEvent 2])
    as (_ & _ & _ & _ & _ & _ & _ & _ & Htied & _).
  destruct (reconnect_backoff noMarshal noMarshal noSyntax "localhost:8080"
              (mkLogger 0 FormatText (mkChan [] 100000) 0)
              (repeat (DialFail 0) 7) [sampleEvent 1; sampleEvent 2])
    as (_ & _ & _ & _ & _ & _ & Hcap & _ & _ & Hout).
  destruct (reconnect_backoff noMarshal noMarshal noSyntax ""
              (mkLogger 0 FormatText (mkChan [] 100000) 0)
              [DialFail 1; DialFail 0; DialOk (failingAfter 0); DialFail 0;
               DialOk (mkConn true true (fun _ => true)); DialFail 0]
              [sampleEvent 1; sampleEvent 2])
    as (_ & _ & _ & _ & _ & _ & _ & Hoff & _).
  split; [exact Hset|]. split; [exact Hfail|].
  split; [exact (Htied Hset)|].
  split; [exact (proj1 (Hout Hset Hfail))|].
  split; [exact (proj2 (Hout Hset Hfail))|].
  split; [exact (proj1 (Hoff eq_refl))|].
  split; [exact (proj2 (Hoff eq_refl))|].
  exact (Hcap 5%nat (le_n 5)).
Defined.

(** The first of these runs, computed: five rounds are run, the last
    one is the connection on which the worker waits. *)
Example reconnect_rounds_run :
  let res := manageConnectionAndSend noMarshal noMarshal noSyntax "localhost:8080"
               (mkLogger 0 FormatText (mkChan [] 100000) 0)
               [DialFail 1; DialFail 0; DialOk (failingAfter 0); DialFail 0;
                DialOk (mkConn true true (fun _ => true)); DialFail 0]
               [sampleEvent 1; sampleEvent 2] in
  dials (snd res)
  = [(5 * Second, false); (5 * Second, false); (5 * Second, true);
     (5 * Second, false); (5 * Second, true)]
  /\ waits (snd res) = [1 * Second; 2 * Second; 1 * Second]
  /\ snd (fst res) = []
  /\ eventBacklog (fst (fst res)) = [].
Proof. vm_compute. repeat split. Qed.

(** Three ids from a fresh logger. *)
Lemma takeIDs_sequential_witness :
  0 <= counter (mkLogger 0 FormatJSON (mkChan [] 10000) 0)
  /\ counter (mkLogger 0 FormatJSON (mkChan [] 10000) 0) + Z.of_nat 3 < 2 ^ 64
  /\ snd (takeIDs 3 (mkLogger 0 FormatJSON (mkChan [] 10000) 0)) = [1; 2; 3].
Proof.
  split; [vm_compute; discriminate|]. split; [vm_compute; reflexivity|].
  rewrite (takeIDs_sequential 3 (mkLogger 0 FormatJSON (mkChan [] 10000) 0)).
  - reflexivity.
  - vm_compute. discriminate.
  - vm_compute. reflexivity.
Defined.

Lemma format_plain_string_witness :
  plainASCII "hello world"
  /\ format noTable (VString "hello world")
     = String dquote ("hello world" ++ str1 dquote).
Proof.
  assert (H : plainASCII "hello world").
  { unfold plainASCII. cbn [list_ascii_of_string].
    repeat (constructor;
            [split; [split; vm_compute; discriminate | split; discriminate]|]).
    constructor. }
  split; [exact H | exact (format_plain_string noTable "hello world" H)].
Defined.

(** A string argument with a line break in it: the message is still one
    line. *)
Lemma text_message_one_line_witness :
  oneLine "testFunc"
  /\ Forall (fun v => handled v = true)
            [VInt 42; VString (String newline "two lines")]
  /\ Forall (fun v => handled v = true) [VBool true]
  /\ exists s,
      encoding noMarshal noMarshal noSyntax FormatText
        (enterEvent noTable 7 1 "testFunc"
           [VInt 42; VString (String newline "two lines")])
      = Some (list_byte_of_string s ++ [x0a])
      /\ oneLine s.
Proof.
  assert (H1 : oneLine "testFunc").
  { unfold oneLine, hasChar. cbn. intuition discriminate. }
  assert (H2 : Forall (fun v => handled v = true)
                      [VInt 42; VString (String newline "two lines")]).
  { repeat constructor. }
  assert (H3 : Forall (fun v => handled v = true) [VBool true]).
  { repeat constructor. }
  split; [exact H1|]. split; [exact H2|]. split; [exact H3|].
  exact (proj1 (text_message_one_line noTable noMarshal noMarshal noSyntax
                  7 1 "testFunc" _ [VBool true] H1 H2 H3)).
Defined.


(** Two failed dials, a connection that breaks on the third write, a
    second that breaks on its second, a failed dial. *)
Lemma run_conserves_order_witness :
  let rounds := [DialFail 2; DialFail 1; DialOk (failingAfter 2);
                 DialOk (failingAfter 1); DialFail 1] in
  let start := mkWorker retryBase [] 0 in
  let queue := map sampleEvent [1; 2; 3; 4; 5; 6] in
  let res := run noMarshal noMarshal noSyntax FormatText "tcp" "localhost:8080"
                 rounds start queue in
  noEviction (snd res)
  /\ received (snd res) ++ snd (fst res) = queue
  /\ encodings noMarshal noMarshal noSyntax FormatText
       (eventBacklog start ++ received (snd res))
     = delivered (snd res)
         ++ encodings noMarshal noMarshal noSyntax FormatText
              (eventBacklog (fst (fst res))).
Proof.
  cbv zeta.
  assert (H : noEviction
                (snd (run noMarshal noMarshal noSyntax FormatText "tcp" "localhost:8080"
                        [DialFail 2; DialFail 1; DialOk (failingAfter 2);
                         DialOk (failingAfter 1); DialFail 1]
                        (mkWorker retryBase [] 0)
                        (map sampleEvent [1; 2; 3; 4; 5; 6])))).
  { vm_compute. reflexivity. }
  split; [exact H|].
  exact (run_conserves_order noMarshal noMarshal noSyntax FormatText "tcp"
           "localhost:8080" _ _ _ H).
Defined.

Example run_conserves_order_values :
  let res := run noMarshal noMarshal noSyntax FormatText "tcp" "localhost:8080"
                 [DialFail 2; DialFail 1; DialOk (failingAfter 2);
                  DialOk (failingAfter 1); DialFail 1]
                 (mkWorker retryBase [] 0)
                 (map sampleEvent [1; 2; 3; 4; 5; 6]) in
  delivered (snd res)
  = map (fun n => list_byte_of_string ("f_Enter(" ++ strconv.FormatUint n ++ ")")
                    ++ [x0a]) [1; 2; 3]
  /\ eventBacklog (fst (fst res)) = map sampleEvent [4; 5]
  /\ snd (fst res) = [sampleEvent 6]
  /\ sent (fst (fst res)) = 3.
Proof. vm_compute. repeat split. Qed.

(** Three failed dials with two events arriving in between, then a sound
    connection; the queue holds 10001 events, more than the backlog
    could. *)
Lemma outage_then_recovery_witness :
  let c := mkConn true true (fun _ => true) in
  let queue := repeat (sampleEvent 7) (Z.to_nat 10001) in
  let res := run noMarshal noMarshal noSyntax FormatText "tcp" "localhost:8080"
                 (map DialFail [1; 0; 1]%nat ++ [DialOk c])
                 (mkWorker retryBase [] 0) queue in
  (forall k, writeOk c k = true)
  /\ len (firstn (list_sum [1; 0; 1]%nat) queue) <= backlogLimit
  /\ backlogLimit < len queue
  /\ delivered (snd res)
     = encodings noMarshal noMarshal noSyntax FormatText queue
  /\ received (snd res) = queue
  /\ eventBacklog (fst (fst res)) = []
  /\ snd (fst res) = []
  /\ noEviction (snd res).
Proof.
  cbv zeta.
  assert (H1 : forall k, writeOk (mkConn true true (fun _ => true)) k = true)
    by (intros k; reflexivity).
  assert (H2 : len (firstn (list_sum [1; 0; 1]%nat)
                      (repeat (sampleEvent 7) (Z.to_nat 10001))) <= backlogLimit)
    by (vm_compute; discriminate).
  assert (H3 : backlogLimit < len (repeat (sampleEvent 7) (Z.to_nat 10001)))
    by (vm_compute; reflexivity).
  split; [exact H1|]. split; [exact H2|]. split; [exact H3|].
  exact (outage_then_recovery noMarshal noMarshal noSyntax FormatText "tcp"
           "localhost:8080" [1; 0; 1]%nat _ 0 _ H1 H2).
Defined.

Example result_names_of_three : 
  resultNames (Some [[]; []; []]) = ["res1"; "res2"; "res3"]%string
  /\ resultNames (Some [["n"; "m"]; ["err"]]%string) = ["n"; "m"; "err"]%string
  /\ hasNamedReturn ["result"; "err"]%string = false.
Proof. vm_compute. repeat split. Qed.

Example format_bytes_list_values :
  format noTable (VBytesList [[x01; x02]; []; [xff]]) = "0x0102||ff"%string
  /\ format noTable (VBytesList [[]]) = "0x"%string
  /\ format noTable (VArray8Uint32 [1; 0; 0; 0; 0; 0; 0; 258])
     = ("0x01000000" ++ "000000000000000000000000000000000000000000000000"
          ++ "02010000")%string.
Proof. vm_compute. repeat split. Qed.
